(** * Pod021 / Pod042 persona-styling core

    A shallow embedding of the response classifier, the style transformer,
    the side-information extractor, the response assembler and the
    exception-style overlay of [mastra/tools/pod021-formatter-tool.ts], and
    of the [IntimacyManager] of [mastra/agents/pod042-agent.ts].

    JavaScript strings are sequences of UTF-16 code units; JavaScript
    numbers are IEEE 754 binary64 values.  Both are modelled as such. *)

From Stdlib Require Import Ascii String.
From Stdlib Require Import List ZArith Bool Lia.
From Stdlib Require Import Floats.SpecFloat.
Import ListNotations.

Local Open Scope Z_scope.

(** ** Strings *)

Module JsString.

(** A string is the list of its UTF-16 code units. *)
Definition str := list Z.

(** [utf16] reads a source literal, written here in UTF-8, into its code
    units.  [pending] counts the continuation bytes still expected and
    [acc] holds the bits of the code point read so far. *)
Definition emit (cp : Z) : str :=
  if cp <? 65536 then [cp]
  else [55296 + Z.shiftr (cp - 65536) 10; 56320 + Z.land (cp - 65536) 1023].

Fixpoint utf16_go (bs : list Z) (pending : nat) (acc : Z) : str :=
  match bs with
  | [] => []
  | b :: r =>
      match pending with
      | O =>
          if b <? 128 then b :: utf16_go r 0 0
          else if b <? 224 then utf16_go r 1 (Z.land b 31)
          else if b <? 240 then utf16_go r 2 (Z.land b 15)
          else utf16_go r 3 (Z.land b 7)
      | S O => emit (Z.lor (Z.shiftl acc 6) (Z.land b 63)) ++ utf16_go r 0 0
      | S k => utf16_go r k (Z.lor (Z.shiftl acc 6) (Z.land b 63))
      end
  end.

Definition utf16 (s : string) : str :=
  utf16_go (map (fun a => Z.of_nat (nat_of_ascii a)) (list_ascii_of_string s)) 0 0.

(** [String.prototype.startsWith] at position 0. *)
Fixpoint startsWith (s k : str) : bool :=
  match k, s with
  | [], _ => true
  | _ :: _, [] => false
  | a :: k', c :: s' => (c =? a) && startsWith s' k'
  end.

(** [String.prototype.includes]: [k] occurs somewhere in [s]. *)
Fixpoint includes (s k : str) : bool :=
  startsWith s k ||
  match s with
  | [] => false
  | _ :: r => includes r k
  end.

(** [String.prototype.endsWith]. *)
Definition endsWith (s k : str) : bool :=
  startsWith (rev s) (rev k).

(** [String.prototype.replace] with a string pattern: only the first
    occurrence is replaced. *)
Fixpoint replaceFirst (pat rep s : str) : str :=
  if startsWith s pat then rep ++ skipn (length pat) s
  else match s with
       | [] => []
       | c :: r => c :: replaceFirst pat rep r
       end.

(** White space and line terminators: the class [\s] of regular
    expressions, which is also what [trim] strips. *)
Definition isSpace (c : Z) : bool :=
  ((9 <=? c) && (c <=? 13)) || (c =? 32) || (c =? 160) || (c =? 5760)
  || ((8192 <=? c) && (c <=? 8202)) || (c =? 8232) || (c =? 8233)
  || (c =? 8239) || (c =? 8287) || (c =? 12288) || (c =? 65279).

(** The class [\d]. *)
Definition isDigit (c : Z) : bool := (48 <=? c) && (c <=? 57).

Fixpoint trimStart (s : str) : str :=
  match s with
  | [] => []
  | c :: r => if isSpace c then trimStart r else s
  end.

Fixpoint trimEnd (s : str) : str :=
  match s with
  | [] => []
  | c :: r =>
      match trimEnd r with
      | [] => if isSpace c then [] else [c]
      | r' => c :: r'
      end
  end.

(** [String.prototype.trim]. *)
Definition trim (s : str) : str := trimEnd (trimStart s).

End JsString.
Import JsString.

(** ** Regular expressions

    The fragment of regular expressions the source uses: an alternation of
    branches, each branch a sequence of greedily quantified character
    classes.  Matching backtracks as the JavaScript matcher does: a
    quantified class first takes as many units as it can and gives them
    back one at a time while the rest of the branch fails. *)

Module Regex.

Record atom := Atom { cls : Z -> bool; lo : nat; hi : option nat }.
Definition branch := list atom.
Definition regex := list branch.

(** One code unit, exactly once. *)
Definition unit (c : Z) : atom := Atom (Z.eqb c) 1 (Some 1%nat).
(** A literal string. *)
Definition lit (s : str) : branch := map unit s.
(** [c?], [c+], [c*], [c{a,b}]. *)
Definition opt (p : Z -> bool) : atom := Atom p 0 (Some 1%nat).
Definition plus (p : Z -> bool) : atom := Atom p 1 None.
Definition star (p : Z -> bool) : atom := Atom p 0 None.
Definition rep (p : Z -> bool) (a b : nat) : atom := Atom p a (Some b).

(** Number of leading units of [s] in class [p], at most [cap] of them. *)
Fixpoint span (p : Z -> bool) (cap : option nat) (s : str) : nat :=
  match s with
  | [] => O
  | c :: r =>
      match cap with
      | Some O => O
      | Some (S n) => if p c then S (span p (Some n) r) else O
      | None => if p c then S (span p None r) else O
      end
  end.

(** Try [k], [k-1], ... down to [low]; the first success wins. *)
Fixpoint backtrack {A : Type} (low : nat) (try : nat -> option A) (k : nat)
  : option A :=
  if (k <? low)%nat then None
  else match try k with
       | Some r => Some r
       | None => match k with
                 | O => None
                 | S k' => backtrack low try k'
                 end
       end.

(** Match a branch at the start of [s]; the result lists the text taken by
    each atom. *)
Fixpoint matchBranch (b : branch) (s : str) : option (list str) :=
  match b with
  | [] => Some []
  | a :: b' =>
      backtrack (lo a)
        (fun k => option_map (cons (firstn k s)) (matchBranch b' (skipn k s)))
        (span (cls a) (hi a) s)
  end.

(** Match a regular expression at the start of [s]: the first branch that
    matches wins. *)
Fixpoint matchHere (re : regex) (s : str) : option (list str) :=
  match re with
  | [] => None
  | b :: re' =>
      match matchBranch b s with
      | Some m => Some m
      | None => matchHere re' s
      end
  end.

(** The text of a whole match. *)
Definition whole (m : list str) : str := concat m.

(** [String.prototype.match] without the [g] flag: the leftmost match. *)
Fixpoint exec (re : regex) (s : str) : option (list str) :=
  match matchHere re s with
  | Some m => Some m
  | None => match s with
            | [] => None
            | _ :: r => exec re r
            end
  end.

(** [String.prototype.replace] with the [g] flag.  [skip] counts the units
    of the current match that are still to be dropped.  An empty match
    inserts the replacement and moves on by one unit. *)
Fixpoint replaceFrom (re : regex) (by_ : str) (skip : nat) (s : str) : str :=
  match skip with
  | S k => match s with
           | [] => []
           | _ :: r => replaceFrom re by_ k r
           end
  | O =>
      match matchHere re s with
      | Some m =>
          by_ ++ match s with
                 | [] => []
                 | c :: r =>
                     match length (whole m) with
                     | O => c :: replaceFrom re by_ 0 r
                     | S n => replaceFrom re by_ n r
                     end
                 end
      | None =>
          match s with
          | [] => []
          | c :: r => c :: replaceFrom re by_ 0 r
          end
      end
  end.

Definition replaceAll (re : regex) (by_ : str) (s : str) : str :=
  replaceFrom re by_ 0 s.

End Regex.
Import Regex.

Arguments utf16 s%_string.

(** ** Numbers: IEEE 754 binary64 *)

Module F64.

Definition prec : Z := 53.
Definition emax : Z := 1024.
Definition float := spec_float.

Definition ofZ (n : Z) : float := binary_normalize prec emax n 0 false.

(** The value of the decimal literal [n/d]: the quotient of two exactly
    representable integers, rounded to nearest even, which is how a decimal
    literal is read. *)
Definition dec (n d : Z) : float := SFdiv prec emax (ofZ n) (ofZ d).

Definition add : float -> float -> float := SFadd prec emax.
Definition ltb : float -> float -> bool := SFltb.
Definition leb : float -> float -> bool := SFleb.
Definition eqb : float -> float -> bool := SFeqb.
(** [x >= y] *)
Definition geb (x y : float) : bool := SFleb y x.

(** [Math.min] of two numbers: NaN if either is NaN, and -0 below +0. *)
Definition min (x y : float) : float :=
  match SFcompare x y with
  | None => S754_nan
  | Some Lt => x
  | Some Gt => y
  | Some Eq =>
      match x, y with
      | S754_zero true, _ => x
      | _, S754_zero true => y
      | _, _ => x
      end
  end.

End F64.

(** ** The formatter tool: [pod021-formatter-tool.ts] *)

Module Formatter.

(** The response types of [ResponseType]. *)
Inductive ResponseTypeEnum :=
| Report          (* 報告 *)
| Suggestion      (* 提案 *)
| Answer          (* 回答 *)
| Acknowledgment  (* 承認 *)
| Understanding   (* 了解 *)
| Analysis        (* 分析 *)
| Warning         (* 警告 *)
| Confirmation.   (* 確認 *)

Definition ResponseType : list ResponseTypeEnum :=
  [Report; Suggestion; Answer; Acknowledgment; Understanding; Analysis;
   Warning; Confirmation].

(** The string a response type is at run time. *)
Definition label (t : ResponseTypeEnum) : str :=
  match t with
  | Report => utf16 "報告"
  | Suggestion => utf16 "提案"
  | Answer => utf16 "回答"
  | Acknowledgment => utf16 "承認"
  | Understanding => utf16 "了解"
  | Analysis => utf16 "分析"
  | Warning => utf16 "警告"
  | Confirmation => utf16 "確認"
  end.

Definition ResponseTypeEnum_eqb (a b : ResponseTypeEnum) : bool :=
  match a, b with
  | Report, Report | Suggestion, Suggestion | Answer, Answer
  | Acknowledgment, Acknowledgment | Understanding, Understanding
  | Analysis, Analysis | Warning, Warning | Confirmation, Confirmation => true
  | _, _ => false
  end.

(** *** [detectResponseType] *)

Section Classifier.

(** [String.prototype.toLowerCase] is the Unicode lower-case conversion of
    the engine; the classifier is stated over any such conversion. *)
Variable toLowerCase : str -> str.

Definition detectResponseType (response : str) (context : option str)
  : ResponseTypeEnum :=
  let lowerResponse := toLowerCase response in
  let lowerContext :=
    match context with
    | None => []
    | Some c => match toLowerCase c with [] => [] | l => l end
    end in
  if includes lowerResponse (utf16 "追加") || includes lowerResponse (utf16 "登録")
     || includes lowerResponse (utf16 "設定") then Acknowledgment
  else if includes lowerResponse (utf16 "わかり") || includes lowerResponse (utf16 "了解")
     || includes lowerResponse (utf16 "実行") then Understanding
  else if includes lowerResponse (utf16 "おすすめ") || includes lowerResponse (utf16 "提案")
     || includes lowerResponse (utf16 "〜してみて") then Suggestion
  else if includes lowerResponse (utf16 "警告") || includes lowerResponse (utf16 "注意")
     || includes lowerResponse (utf16 "危険") then Warning
  else if includes lowerResponse (utf16 "分析") || includes lowerResponse (utf16 "データ")
     || includes lowerResponse (utf16 "統計") then Analysis
  else if includes lowerResponse (utf16 "？") || includes lowerResponse (utf16 "確認")
     || includes lowerResponse (utf16 "よろしい") then Confirmation
  else if includes lowerContext (utf16 "？") || includes lowerContext (utf16 "教えて")
     || includes lowerContext (utf16 "どう") then Answer
  else Report.

End Classifier.

(** *** [formatToPod021Style] *)

(** The terminal mark 。 (U+3002). *)
Definition kuten : Z := 12290.
Definition isKuten (c : Z) : bool := c =? kuten.

(** [/lit。?/g] *)
Definition politeEnding (s : string) : regex := [lit (utf16 s) ++ [opt isKuten]].
(** [/lit/g] *)
Definition word (s : string) : regex := [lit (utf16 s)].

Arguments politeEnding s%_string.
Arguments word s%_string.

(** 1. politeness markers removed or turned into the plain ending *)
Definition removePoliteness (formatted : str) : str :=
  let formatted := replaceAll (politeEnding "です") [kuten] formatted in
  let formatted := replaceAll (politeEnding "ます") [kuten] formatted in
  let formatted := replaceAll (politeEnding "でしょう") [kuten] formatted in
  let formatted := replaceAll (word "だと思います") (utf16 "と判断する") formatted in
  let formatted := replaceAll (word "〜かもしれません") (utf16 "〜の可能性がある") formatted in
  let formatted := replaceAll (word "お疲れ様") [] formatted in
  let formatted := replaceAll (word "ありがとう") [] formatted in
  let formatted := replaceAll (word "すみません") [] formatted in
  replaceAll (word "恐れ入り") [] formatted.

(** 2. emotion words *)
Definition convertEmotions (formatted : str) : str :=
  let formatted := replaceAll (word "嬉しい") (utf16 "好ましい状態") formatted in
  let formatted := replaceAll (word "楽しい") (utf16 "効率的") formatted in
  let formatted := replaceAll (word "悲しい") (utf16 "非効率的状態") formatted in
  let formatted := replaceAll (word "驚く") (utf16 "予期しない事象") formatted in
  replaceAll (word "感動") (utf16 "効果的反応") formatted.

(** 3. the unit's own vocabulary *)
Definition podExpressions (formatted : str) : str :=
  let formatted := replaceAll (word "私は") (utf16 "当機は") formatted in
  let formatted := replaceAll (word "僕は") (utf16 "当機は") formatted in
  let formatted := replaceAll (word "あなた") (utf16 "ユーザー") formatted in
  let formatted := replaceAll (word "君") (utf16 "ユーザー") formatted in
  let formatted := replaceAll (word "できました") (utf16 "完了") formatted in
  let formatted := replaceAll (word "しました") (utf16 "実行") formatted in
  let formatted := replaceAll (word "見つけました") (utf16 "検出") formatted in
  replaceAll (word "調べました") (utf16 "解析") formatted.

(** 4. the assertive ending *)
Definition assertiveEnding (formatted : str) : str :=
  if negb (endsWith formatted [kuten]) then formatted ++ [kuten] else formatted.

(** 5. redundancy removed: [/。。+/g], [/\s+/g], [trim] *)
Definition collapseKuten : str -> str :=
  replaceAll [[unit kuten; plus isKuten]] [kuten].
Definition collapseSpace : str -> str :=
  replaceAll [[plus isSpace]] [32].

Definition simplifyRedundancy (formatted : str) : str :=
  trim (collapseSpace (collapseKuten formatted)).

Definition formatToPod021Style (response : str) (type : ResponseTypeEnum) : str :=
  let formatted := response in
  let formatted := removePoliteness formatted in
  let formatted := convertEmotions formatted in
  let formatted := podExpressions formatted in
  let formatted := assertiveEnding formatted in
  simplifyRedundancy formatted.

(** *** [extractAdditionalInfo] *)

(** [/(\d+)件/] *)
Definition countPattern : regex :=
  [plus isDigit :: lit (utf16 "件")].
(** [/(\d{1,2}時\d{1,2}分)|(\d{1,2}:\d{2})/] *)
Definition timePattern : regex :=
  [ [rep isDigit 1 2] ++ lit (utf16 "時") ++ [rep isDigit 1 2] ++ lit (utf16 "分");
    [rep isDigit 1 2] ++ lit (utf16 ":") ++ [rep isDigit 2 2] ].
(** digits, an optional dot and further digits before [MB] or [GB], or
    digits before 個: the three alternatives of the data pattern *)
Definition dataPattern : regex :=
  [ [plus isDigit; opt (Z.eqb 46); star isDigit] ++ lit (utf16 "MB");
    [plus isDigit; opt (Z.eqb 46); star isDigit] ++ lit (utf16 "GB");
    plus isDigit :: lit (utf16 "個") ].

Definition isCountType (t : ResponseTypeEnum) : bool :=
  ResponseTypeEnum_eqb t Acknowledgment || ResponseTypeEnum_eqb t Report.

Definition extractAdditionalInfo (response : str) (type : ResponseTypeEnum)
  : option str :=
  let countMatch := exec countPattern response in
  match countMatch, isCountType type with
  | Some m, true => Some (utf16 "【現在" ++ nth 0 m [] ++ utf16 "件】")
  | _, _ =>
      let timeMatch := exec timePattern response in
      match timeMatch, ResponseTypeEnum_eqb type Understanding with
      | Some m, true => Some (utf16 "【" ++ whole m ++ utf16 "に実行】")
      | _, _ =>
          let dataMatch := exec dataPattern response in
          match dataMatch, ResponseTypeEnum_eqb type Analysis with
          | Some m, true => Some (utf16 "【データ量: " ++ whole m ++ utf16 "】")
          | _, _ => None
          end
      end
  end.

(** *** [generatePod021Response] *)

(** How a call ends: with a value, or with a thrown error of some name. *)
Inductive completion :=
| Normal (value : str)
| Throw (name : str).

(** The argument as it is at run time: [type] is whatever string the caller
    passed. *)
Record formatted := Formatted {
  type : str;
  content : str;
  additionalInfo : option str
}.

Definition generatePod021Response (f : formatted) : completion :=
  let header := type f ++ utf16 "：" in
  let additionalPart :=
    match additionalInfo f with
    | Some (c :: info) => utf16 " " ++ c :: info
    | Some [] | None => []    (* the empty string is falsy, as undefined is *)
    end in
  Normal (header ++ content f ++ additionalPart).

(** *** [applyIntimacyPhase] *)

Definition applyIntimacyPhase (response : str) (intimacyLevel : option F64.float)
  : str :=
  let intimacyLevel :=
    match intimacyLevel with
    | Some l => l
    | None => F64.ofZ 0
    end in
  if F64.ltb intimacyLevel (F64.ofZ 3) then response
  else if includes response (utf16 "当機は必要な処理を実行したのみである")
  then response ++ utf16 "……しかし、その言葉は好ましい反応と認識。"
  else if includes response (utf16 "親密度") || includes response (utf16 "接触")
  then replaceFirst (utf16 "。")
         (utf16 "。当機は、非戦闘行為であっても、その接触を好意的と判断する。") response
  else response.

End Formatter.

Import Formatter.

(** ** The familiarity tracker: [IntimacyManager] of [pod042-agent.ts] *)

Module Intimacy.

Import F64.

Record IntimacyManager := Manager {
  intimacyLevel : float;
  interactionCount : Z
}.

(** A new manager: both fields start at 0. *)
Definition fresh : IntimacyManager := Manager (ofZ 0) 0.

(** [interactionCount++] on the counts a manager started at 0 can hold: the
    count is a number holding an integer, so the increment is exact up to
    2^53, where adding one rounds back to 2^53 and the count stays.  Counts
    above 2^53, which no such manager reaches, are outside this model. *)
Definition increment (n : Z) : Z :=
  if n <? 9007199254740992 then n + 1 else n.

Definition updateIntimacy (userMessage botResponse : str) (this : IntimacyManager)
  : IntimacyManager :=
  let interactionCount := increment (interactionCount this) in
  let intimacyLevel := intimacyLevel this in
  let intimacyLevel :=
    if includes userMessage (utf16 "ありがとう") || includes userMessage (utf16 "助かる")
    then add intimacyLevel (dec 1 10) else intimacyLevel in
  let intimacyLevel :=
    if includes userMessage (utf16 "ポッド")
       && (includes userMessage (utf16 "好き") || includes userMessage (utf16 "撫で"))
    then add intimacyLevel (dec 3 10) else intimacyLevel in
  let intimacyLevel :=
    if interactionCount mod 20 =? 0
    then add intimacyLevel (dec 5 100) else intimacyLevel in
  let intimacyLevel := min intimacyLevel (ofZ 5) in
  Manager intimacyLevel interactionCount.

Definition getIntimacyLevel (this : IntimacyManager) : float :=
  intimacyLevel this.

Definition isIntimatePhase (this : IntimacyManager) : bool :=
  geb (intimacyLevel this) (ofZ 3).

(** The five phase names, in the order of the ladder. *)
Inductive Phase :=
| Initial      (* 初期 *)
| Observing    (* 観察 *)
| Trusting     (* 信頼 *)
| Intimate     (* 親密 *)
| Emergent.    (* 感情萌芽 *)

Definition phaseName (p : Phase) : str :=
  match p with
  | Initial => utf16 "初期"
  | Observing => utf16 "観察"
  | Trusting => utf16 "信頼"
  | Intimate => utf16 "親密"
  | Emergent => utf16 "感情萌芽"
  end.

Definition getPhase (this : IntimacyManager) : Phase :=
  if ltb (intimacyLevel this) (ofZ 1) then Initial
  else if ltb (intimacyLevel this) (ofZ 2) then Observing
  else if ltb (intimacyLevel this) (ofZ 3) then Trusting
  else if ltb (intimacyLevel this) (ofZ 4) then Intimate
  else Emergent.

(** Position of a phase on the ladder. *)
Definition rank (p : Phase) : nat :=
  match p with
  | Initial => 0
  | Observing => 1
  | Trusting => 2
  | Intimate => 3
  | Emergent => 4
  end.

(** A turn is a user message and the bot's response to it. *)
Definition turn : Type := str * str.

Definition update (this : IntimacyManager) (t : turn) : IntimacyManager :=
  updateIntimacy (fst t) (snd t) this.

(** The manager after each of a sequence of calls. *)
Fixpoint history (this : IntimacyManager) (calls : list turn)
  : list IntimacyManager :=
  match calls with
  | [] => []
  | t :: rest => update this t :: history (update this t) rest
  end.

(** The manager after all of them. *)
Definition after (this : IntimacyManager) (calls : list turn) : IntimacyManager :=
  fold_left update calls this.

End Intimacy.
Import Intimacy.

(** * The rest of the two files *)

(** ** The tool itself: [pod021FormatterTool.execute] *)

Module Tool.

Section Execute.

Variable toLowerCase : str -> str.

(** The three steps of [execute].  A given response type is a non-empty
    string, so it is used whenever it is present.  The result is the object
    the tool returns, its type being the string of the response type. *)
Definition execute (rawResponse : str) (responseType : option ResponseTypeEnum)
    (context : option str) : formatted :=
  let detectedType :=
    match responseType with
    | Some t => t
    | None => detectResponseType toLowerCase rawResponse context
    end in
  let formattedContent := formatToPod021Style rawResponse detectedType in
  let additionalInfo := extractAdditionalInfo rawResponse detectedType in
  Formatted (label detectedType) formattedContent additionalInfo.

End Execute.

End Tool.

(** ** The response helper: [Pod042ResponseHelper] of [pod042-agent.ts] *)

Module Helper.

Import F64.

(** The five intents of [analyzeUserIntent]. *)
Inductive Intent :=
| Question       (* 質問 *)
| Instruction    (* 指示 *)
| Gratitude      (* 感謝 *)
| Consultation   (* 相談 *)
| General.       (* 一般 *)

Definition intentName (i : Intent) : str :=
  match i with
  | Question => utf16 "質問"
  | Instruction => utf16 "指示"
  | Gratitude => utf16 "感謝"
  | Consultation => utf16 "相談"
  | General => utf16 "一般"
  end.

Record Pod042ResponseHelper := ResponseHelper {
  intimacyManager : IntimacyManager
}.

(** The constructor. *)
Definition new : Pod042ResponseHelper := ResponseHelper fresh.

Section AnalyzeUserIntent.

Variable toLowerCase : str -> str.

Definition analyzeUserIntent (message : str) : Intent :=
  let lowerMessage := toLowerCase message in
  if includes lowerMessage (utf16 "？") || includes lowerMessage (utf16 "?")
     || includes lowerMessage (utf16 "教えて") then Question
  else if includes lowerMessage (utf16 "お願い") || includes lowerMessage (utf16 "して")
     || includes lowerMessage (utf16 "追加") then Instruction
  else if includes lowerMessage (utf16 "ありがとう") || includes lowerMessage (utf16 "助かる")
  then Gratitude
  else if includes lowerMessage (utf16 "どう思う") || includes lowerMessage (utf16 "意見")
  then Consultation
  else General.

End AnalyzeUserIntent.

Definition updateIntimacy (userMessage botResponse : str)
    (this : Pod042ResponseHelper) : Pod042ResponseHelper :=
  ResponseHelper (Intimacy.updateIntimacy userMessage botResponse (intimacyManager this)).

Record Status := {
  status_intimacyLevel : float;
  status_phase : str;
  status_isIntimate : bool
}.

Definition getStatus (this : Pod042ResponseHelper) : Status :=
  {| status_intimacyLevel := getIntimacyLevel (intimacyManager this);
     status_phase := phaseName (getPhase (intimacyManager this));
     status_isIntimate := isIntimatePhase (intimacyManager this) |}.

End Helper.

(** ** The checks of the dialogue test script: [validatePod021Response] *)

Module Harness.

(** The header pattern, anchored at the start: one of thirteen headers and a
    full-width colon. *)
Definition headerPattern : regex :=
  map (fun h => lit (h ++ utf16 "："))
    [utf16 "報告"; utf16 "提案"; utf16 "回答"; utf16 "承認"; utf16 "了解";
     utf16 "分析"; utf16 "警告"; utf16 "確認"; utf16 "肯定"; utf16 "否定";
     utf16 "要求"; utf16 "照会"; utf16 "補足"].

Definition emotionWords : list str :=
  [utf16 "嬉しい"; utf16 "悲しい"; utf16 "楽しい"; utf16 "素晴らしい"; utf16 "残念"].

Record validations := {
  hasHeader : bool;
  correctHeader : bool;
  isAssertive : bool;
  noPoliteForm : bool;
  noEmotions : bool
}.

Definition validate (response expectedHeader : str) : validations :=
  {| hasHeader :=
       match matchHere headerPattern response with Some _ => true | None => false end;
     correctHeader := startsWith response expectedHeader;
     noPoliteForm :=
       negb (includes response (utf16 "です")) && negb (includes response (utf16 "ます"));
     noEmotions := negb (existsb (fun w => includes response w) emotionWords);
     isAssertive :=
       endsWith response (utf16 "。") || endsWith response (utf16 "る。")
       || endsWith response (utf16 "た。") |}.

(** The number of checks passed. *)
Definition score (v : validations) : nat :=
  length (filter (fun b => b)
            [hasHeader v; correctHeader v; isAssertive v; noPoliteForm v; noEmotions v]).

(** The value [validatePod021Response] returns: all five checks passed. *)
Definition validatePod021Response (response expectedHeader : str) : bool :=
  (score (validate response expectedHeader) =? 5)%nat.

End Harness.

(** * Vocabulary of the properties *)

(** A closed equation settled by evaluating its left-hand side. *)
Ltac computed :=
  lazymatch goal with
  | |- _ = ?v => vm_cast_no_check (@eq_refl _ v)
  end.

(** ** The classifier *)

(** Code units that have no case: kana and CJK punctuation, the unified
    ideographs, and the full-width question mark. *)
Definition uncased (c : Z) : bool :=
  ((12288 <=? c) && (c <=? 12543)) || ((19968 <=? c) && (c <=? 40959))
  || (c =? 65311).

(** The keywords of the six text rules, and the markers looked for in the
    context. *)
Definition textKeywords : list str :=
  [utf16 "追加"; utf16 "登録"; utf16 "設定";
   utf16 "わかり"; utf16 "了解"; utf16 "実行";
   utf16 "おすすめ"; utf16 "提案"; utf16 "〜してみて";
   utf16 "警告"; utf16 "注意"; utf16 "危険";
   utf16 "分析"; utf16 "データ"; utf16 "統計";
   utf16 "？"; utf16 "確認"; utf16 "よろしい"].

Definition contextMarkers : list str :=
  [utf16 "？"; utf16 "教えて"; utf16 "どう"].

(** Lower-casing of ASCII text, on which the classifier can be run. *)
Definition toLowerCaseAscii (s : str) : str :=
  map (fun c => if (65 <=? c) && (c <=? 90) then c + 32 else c) s.

(** ** The assembler *)

Definition isResponseType (s : str) : bool :=
  existsb (fun t => if list_eq_dec Z.eq_dec s (label t) then true else false)
    ResponseType.

(** The part the assembler appends for an annotation. *)
Definition annotationPart (info : option str) : str :=
  match info with
  | Some (c :: r) => 32 :: c :: r
  | _ => []
  end.

(** ** The familiarity tracker *)

(** What a call does to the level, given which of the three bonuses
    apply. *)
Definition raise (gratitude affection periodic : bool) (l : F64.float)
  : F64.float :=
  let l := if gratitude then F64.add l (F64.dec 1 10) else l in
  let l := if affection then F64.add l (F64.dec 3 10) else l in
  let l := if periodic then F64.add l (F64.dec 5 100) else l in
  F64.min l (F64.ofZ 5).

(** A turn whose user message has a gratitude marker and no pair of the
    unit's name with an affection marker. *)
Definition gratitudeOnly (t : turn) : bool :=
  let userMessage := fst t in
  (includes userMessage (utf16 "ありがとう") || includes userMessage (utf16 "助かる"))
  && negb (includes userMessage (utf16 "ポッド")
           && (includes userMessage (utf16 "好き") || includes userMessage (utf16 "撫で"))).

(** What such a turn does to the manager. *)
Definition thank (m : IntimacyManager) : IntimacyManager :=
  let n := increment (interactionCount m) in
  Manager (raise true false (n mod 20 =? 0) (intimacyLevel m)) n.

(** 2.0500000000000003, the binary64 value next above 2.05. *)
Definition level_after_20 : F64.float :=
  S754_finite false 4616189618054759 (-51).

(** The levels a manager can hold: [reachable] closes the initial level
    under the eight combinations of bonuses, found by a breadth-first
    search. *)
Definition successors (l : F64.float) : list F64.float :=
  [raise false false false l; raise false false true l;
   raise false true false l; raise false true true l;
   raise true false false l; raise true false true l;
   raise true true false l; raise true true true l].

Definition same (x y : F64.float) : bool :=
  match x, y with
  | S754_zero a, S754_zero b => Bool.eqb a b
  | S754_infinity a, S754_infinity b => Bool.eqb a b
  | S754_nan, S754_nan => true
  | S754_finite s m e, S754_finite s' m' e' =>
      Bool.eqb s s' && Pos.eqb m m' && Z.eqb e e'
  | _, _ => false
  end.

Definition member (x : F64.float) (l : list F64.float) : bool :=
  existsb (same x) l.

Fixpoint addNew (candidates seen found : list F64.float)
  : list F64.float * list F64.float :=
  match candidates with
  | [] => (seen, found)
  | c :: r =>
      if member c seen then addNew r seen found
      else addNew r (c :: seen) (c :: found)
  end.

Fixpoint explore (fuel : nat) (seen frontier : list F64.float)
  : list F64.float :=
  match fuel with
  | O => seen
  | S f =>
      match frontier with
      | [] => seen
      | _ =>
          let '(seen', found) := addNew (flat_map successors frontier) seen [] in
          explore f seen' found
      end
  end.

Definition reachable : list F64.float :=
  Eval vm_compute in explore 200 [F64.ofZ 0] [F64.ofZ 0].

Definition phaseOf (l : F64.float) : Phase := getPhase (Manager l 0).

(** What one call may do to a level [x], giving [y]. *)
Definition stepOk (x y : F64.float) : bool :=
  F64.leb (F64.ofZ 0) y && F64.leb y (F64.ofZ 5) && F64.leb x y
  && (rank (phaseOf x) <=? rank (phaseOf y))%nat.

Definition closed (levels : list F64.float) : bool :=
  forallb (fun x => forallb (fun y => member y levels && stepOk x y) (successors x))
    levels.

(** The bounds on a level, and what holds between a level and the next. *)
Definition bounded_level (m : IntimacyManager) : Prop :=
  F64.leb (F64.ofZ 0) (getIntimacyLevel m) = true
  /\ F64.leb (getIntimacyLevel m) (F64.ofZ 5) = true.

Definition advances (m m' : IntimacyManager) : Prop :=
  F64.leb (getIntimacyLevel m) (getIntimacyLevel m') = true
  /\ (rank (getPhase m) <= rank (getPhase m'))%nat.

(** ** The style transformer *)

(** What is left of [s] after its leading units of class [p]. *)
Definition dropWhile (p : Z -> bool) (s : str) : str :=
  skipn (span p None s) s.

(** The class of the first unit, and of the last. *)
Definition headIs (q : Z -> bool) (s : str) : bool :=
  match s with
  | [] => false
  | c :: _ => q c
  end.

Fixpoint lastIs (q : Z -> bool) (s : str) : bool :=
  match s with
  | [] => false
  | [c] => q c
  | _ :: r => lastIs q r
  end.

(** [re] matches exactly the runs of class [p] that are at least [m] long,
    and takes the whole run. *)
Definition runs (re : regex) (p : Z -> bool) (m : nat) : Prop :=
  forall s,
    match matchHere re s with
    | Some pieces =>
        (m <= span p None s)%nat /\ length (whole pieces) = span p None s
    | None => (span p None s < m)%nat
    end.

(** Every white-space unit is a single plain space. *)
Fixpoint wsNormal (s : str) : bool :=
  match s with
  | [] => true
  | c :: r =>
      (if isSpace c then (c =? 32) && negb (headIs isSpace r) else true)
      && wsNormal r
  end.

(** The transformer is its substitution passes (steps 1 to 3 of the source)
    followed by the normalization of the ending (steps 4 and 5). *)
Definition substitute (t : str) : str :=
  podExpressions (convertEmotions (removePoliteness t)).

Definition normalizeEnding (s : str) : str :=
  simplifyRedundancy (assertiveEnding s).

(** The shape of a normalized string. *)
Record normalized (y : str) : Prop := {
  ends_with_mark : lastIs isKuten y = true;
  single_marks : includes y [kuten; kuten] = false;
  single_spaces : wsNormal y = true;
  no_leading_space : headIs isSpace y = false
}.

(** ** Further vocabulary *)

(** The words the substitution passes look for. *)
Definition substitutionWords : list str :=
  [utf16 "です"; utf16 "ます"; utf16 "でしょう"; utf16 "だと思います";
   utf16 "〜かもしれません"; utf16 "お疲れ様"; utf16 "ありがとう";
   utf16 "すみません"; utf16 "恐れ入り";
   utf16 "嬉しい"; utf16 "楽しい"; utf16 "悲しい"; utf16 "驚く"; utf16 "感動";
   utf16 "私は"; utf16 "僕は"; utf16 "あなた"; utf16 "君"; utf16 "できました";
   utf16 "しました"; utf16 "見つけました"; utf16 "調べました"].

(** The six text rules of the classifier as an ordered table, and its
    evaluation: the type of the first rule one of whose keywords occurs. *)
Definition textRules : list (list str * ResponseTypeEnum) :=
  [([utf16 "追加"; utf16 "登録"; utf16 "設定"], Acknowledgment);
   ([utf16 "わかり"; utf16 "了解"; utf16 "実行"], Understanding);
   ([utf16 "おすすめ"; utf16 "提案"; utf16 "〜してみて"], Suggestion);
   ([utf16 "警告"; utf16 "注意"; utf16 "危険"], Warning);
   ([utf16 "分析"; utf16 "データ"; utf16 "統計"], Analysis);
   ([utf16 "？"; utf16 "確認"; utf16 "よろしい"], Confirmation)].

Fixpoint firstRule (rules : list (list str * ResponseTypeEnum)) (text : str)
  : option ResponseTypeEnum :=
  match rules with
  | [] => None
  | (keywords, t) :: rest =>
      if existsb (includes text) keywords then Some t else firstRule rest text
  end.

(** Whether a lower-cased context asks a question. *)
Definition asksQuestion (lowerContext : str) : bool :=
  existsb (includes lowerContext) contextMarkers.

(** The context as the classifier reads it. *)
Definition loweredContext (toLowerCase : str -> str) (context : option str) : str :=
  match context with
  | None => []
  | Some c => toLowerCase c
  end.

(** The two sentences the overlay can add. *)
Definition recognitionFragment : str :=
  Eval vm_compute in utf16 "……しかし、その言葉は好ましい反応と認識。".
Definition contactFragment : str :=
  Eval vm_compute in utf16 "当機は、非戦闘行為であっても、その接触を好意的と判断する。".

(** The closing bracket 】 of an annotation. *)
Definition isClosingBracket (c : Z) : bool := c =? 12305.

(** A number, as opposed to NaN. *)
Definition isNumber (x : F64.float) : bool :=
  match x with
  | S754_nan => false
  | _ => true
  end.

(** A turn with no gratitude marker and no pair of the unit's name with an
    affection marker. *)
Definition quiet (t : turn) : bool :=
  let userMessage := fst t in
  negb (includes userMessage (utf16 "ありがとう") || includes userMessage (utf16 "助かる"))
  && negb (includes userMessage (utf16 "ポッド")
           && (includes userMessage (utf16 "好き") || includes userMessage (utf16 "撫で"))).

(** What a quiet turn does to the manager. *)
Definition idle (m : IntimacyManager) : IntimacyManager :=
  let n := increment (interactionCount m) in
  Manager (raise false false (n mod 20 =? 0) (intimacyLevel m)) n.

(** A list without its repetitions. *)
Fixpoint nub (l : list F64.float) : list F64.float :=
  match l with
  | [] => []
  | x :: r => if member x r then nub r else x :: nub r
  end.

(** The levels a manager can hold after a given number of calls, while the
    periodic bonus has not yet come up. *)
Fixpoint earlyLevels (calls : nat) : list F64.float :=
  match calls with
  | O => [F64.ofZ 0]
  | S n =>
      nub (flat_map (fun l => [raise false false false l; raise false true false l;
                               raise true false false l; raise true true false l])
             (earlyLevels n))
  end.

(** The helper after a sequence of turns. *)
Definition helperAfter (calls : list turn) : Helper.Pod042ResponseHelper :=
  fold_left (fun h t => Helper.updateIntimacy (fst t) (snd t) h) calls Helper.new.

(** The two markers [updateIntimacy] looks for in a user message. *)
Definition thanks (userMessage : str) : bool :=
  includes userMessage (utf16 "ありがとう") || includes userMessage (utf16 "助かる").
Definition fond (userMessage : str) : bool :=
  includes userMessage (utf16 "ポッド")
  && (includes userMessage (utf16 "好き") || includes userMessage (utf16 "撫で")).

(** Whether the phase and the intimate flag of a level agree. *)
Definition phaseAgrees (l : F64.float) : bool :=
  Bool.eqb (F64.geb l (F64.ofZ 3)) (3 <=? rank (phaseOf l))%nat.

(** Walks along the quiet turns from the [i]th call on and checks, at each
    of the next [steps] calls, that the intimate flag is on from the 1220th
    call and not before, and at the end that the level is at the ceiling. *)
Fixpoint idleRun (steps i : nat) (m : IntimacyManager) : bool :=
  Bool.eqb (isIntimatePhase m) (1220 <=? i)%nat
  && match steps with
     | O => same (intimacyLevel m) (F64.ofZ 5)
     | S k => idleRun k (S i) (idle m)
     end.

(** A turn whose user message carries both a gratitude marker and a pair of
    the unit's name with an affection marker, and what such a turn does to
    the manager. *)
Definition warm (t : turn) : bool := thanks (fst t) && fond (fst t).

Definition cherish (m : IntimacyManager) : IntimacyManager :=
  let n := increment (interactionCount m) in
  Manager (raise true true (n mod 20 =? 0) (intimacyLevel m)) n.

(** * Properties *)

(** ** Literals *)

Example literals :
  F64.dec 1 10 = S754_finite false 7205759403792794 (-56)
  /\ F64.dec 3 10 = S754_finite false 5404319552844595 (-54)
  /\ F64.dec 5 100 = S754_finite false 7205759403792794 (-57)
  /\ F64.dec 205 100 = S754_finite false 4616189618054758 (-51)
  /\ F64.ofZ 5 = S754_finite false 5629499534213120 (-50).
Proof. repeat split; computed. Qed.

(** ** The classifier *)

Lemma startsWith_lower (k s : str) :
  forallb uncased k = true ->
  startsWith s k = true -> startsWith (toLowerCaseAscii s) k = true.
Proof.
  revert s; induction k as [|a k IH]; intros s Hk Hs.
  - destruct s; reflexivity.
  - destruct s as [|c s]; [discriminate|].
    simpl in Hk, Hs |- *.
    apply andb_true_iff in Hk as [Ha Hk].
    apply andb_true_iff in Hs as [Hc Hs].
    apply Z.eqb_eq in Hc; subst c.
    rewrite (IH s Hk Hs), andb_true_r.
    assert (Hlow : (65 <=? a) && (a <=? 90) = false).
    { unfold uncased in Ha. apply andb_false_iff.
      destruct (Z.leb_spec a 90) as [H90|H90]; [|now right].
      left. apply Z.leb_gt.
      repeat (apply orb_true_iff in Ha as [Ha|Ha]);
        repeat (apply andb_true_iff in Ha as [Ha ?]); lia. }
    rewrite Hlow. apply Z.eqb_refl.
Qed.

Lemma includes_lower (s k : str) :
  forallb uncased k = true ->
  includes s k = true -> includes (toLowerCaseAscii s) k = true.
Proof.
  intros Hk. induction s as [|c s IH]; intros Hs.
  - simpl in Hs |- *. rewrite orb_false_r in Hs |- *.
    now apply (startsWith_lower k []).
  - change (toLowerCaseAscii (c :: s))
      with ((if (65 <=? c) && (c <=? 90) then c + 32 else c) :: toLowerCaseAscii s).
    cbn [includes] in Hs |- *.
    apply orb_true_iff in Hs as [Hs|Hs]; apply orb_true_iff.
    + left. now apply (startsWith_lower k (c :: s)).
    + right. now apply IH.
Qed.

Section ClassifierTotality.

Variable toLowerCase : str -> str.

(** C8: the classifier is total and closed over the taxonomy: for every
    text, the empty one included, and every optional context it returns one
    of the eight response types; and when no keyword of the text rules
    occurs in the lower-cased text and no question marker occurs in the
    lower-cased context (or no context is given), it returns the default,
    a report (報告). *)
Theorem classify_total_default (text : str) (context : option str) :
  In (detectResponseType toLowerCase text context) ResponseType
  /\ ((forall k, In k textKeywords -> includes (toLowerCase text) k = false) ->
      match context with
      | None => True
      | Some c =>
          forall k, In k contextMarkers -> includes (toLowerCase c) k = false
      end ->
      detectResponseType toLowerCase text context = Report).
Proof.
  split.
  - destruct (detectResponseType toLowerCase text context); simpl; tauto.
  - intros Htext Hctx. unfold detectResponseType. cbv zeta.
    rewrite !Htext by (simpl; tauto). cbn [orb].
    destruct context as [c|]; [|reflexivity].
    assert (Hc : forall k, In k contextMarkers ->
                 includes match toLowerCase c with [] => [] | l => l end k = false).
    { intros k Hk. specialize (Hctx k Hk).
      destruct (toLowerCase c); exact Hctx. }
    rewrite !Hc by (simpl; tauto). reflexivity.
Qed.

End ClassifierTotality.

Lemma classify_total_default_witness :
  detectResponseType toLowerCaseAscii [] None = Report.
Proof.
  refine (proj2 (classify_total_default toLowerCaseAscii [] None) _ I).
  - intros k Hk. simpl in Hk.
    repeat (destruct Hk as [<-|Hk]; [computed|]). destruct Hk.
Defined.

(** ** The extractor *)

(** C7: the count example, and the two ways the extractor returns nothing:
    a response type outside 承認, 報告, 了解 and 分析, or a text the pattern
    of the type's class does not match. *)
Theorem extract_annotation :
  extractAdditionalInfo (utf16 "現在10件registered.") Acknowledgment
  = Some (utf16 "【現在10件】")
  /\ (forall text type,
         type <> Acknowledgment -> type <> Report ->
         type <> Understanding -> type <> Analysis ->
         extractAdditionalInfo text type = None)
  /\ (forall text type,
         type = Acknowledgment \/ type = Report ->
         exec countPattern text = None ->
         extractAdditionalInfo text type = None)
  /\ (forall text,
         exec timePattern text = None ->
         extractAdditionalInfo text Understanding = None)
  /\ (forall text,
         exec dataPattern text = None ->
         extractAdditionalInfo text Analysis = None).
Proof.
  split; [computed|].
  split; [|split; [|split]].
  - intros text type H1 H2 H3 H4. unfold extractAdditionalInfo.
    destruct type; try congruence; cbn;
      destruct (exec countPattern text), (exec timePattern text),
        (exec dataPattern text); reflexivity.
  - intros text type [-> | ->] Hc; unfold extractAdditionalInfo;
      rewrite Hc; cbn;
      destruct (exec timePattern text), (exec dataPattern text); reflexivity.
  - intros text Ht. unfold extractAdditionalInfo. rewrite Ht. cbn.
    destruct (exec countPattern text), (exec dataPattern text); reflexivity.
  - intros text Hd. unfold extractAdditionalInfo. rewrite Hd. cbn.
    destruct (exec countPattern text), (exec timePattern text); reflexivity.
Qed.

Lemma extract_annotation_witness :
  extractAdditionalInfo (utf16 "12時5分に3件") Warning = None
  /\ extractAdditionalInfo (utf16 "登録した") Report = None
  /\ extractAdditionalInfo (utf16 "10件") Understanding = None
  /\ extractAdditionalInfo (utf16 "10件") Analysis = None.
Proof.
  destruct extract_annotation as (_ & Hother & Hcount & Htime & Hdata).
  split; [|split; [|split]].
  - apply Hother; discriminate.
  - apply Hcount; [now right | computed].
  - apply Htime. computed.
  - apply Hdata. computed.
Defined.

(** ** The assembler *)

(** C2, as the code has it: the assembler checks nothing.  Whatever string
    it is given as the type, one of the eight or not, it returns the type,
    a full-width colon, the content and, when there is a non-empty
    annotation, a space and the annotation; it never throws. *)
Theorem assemble_never_fails (f : formatted) :
  generatePod021Response f
  = Normal (type f ++ utf16 "：" ++ content f ++ annotationPart (additionalInfo f)).
Proof.
  unfold generatePod021Response, annotationPart.
  destruct (additionalInfo f) as [[|c r]|]; cbv zeta;
    rewrite <- app_assoc; reflexivity.
Qed.

(** C2 fails as stated: 挨拶 is not one of the eight response types, and the
    assembler returns a string for it. *)
Lemma assemble_invalid_category_not_raised :
  ~ (forall f : formatted,
        isResponseType (type f) = false ->
        generatePod021Response f = Throw (utf16 "InvalidCategory")).
Proof.
  intros H.
  specialize (H (Formatted (utf16 "挨拶") (utf16 "任務を開始する。") None)).
  assert (E : isResponseType (utf16 "挨拶") = false) by computed.
  specialize (H E). discriminate H.
Qed.

(** ** The overlay *)

(** C5: below level 3.0 the overlay returns its response unchanged, whatever
    the response is. *)
Theorem overlay_identity_below_threshold (response : str) (level : F64.float) :
  F64.ltb level (F64.ofZ 3) = true ->
  applyIntimacyPhase response (Some level) = response.
Proof.
  intros Hlt. unfold applyIntimacyPhase. rewrite Hlt. reflexivity.
Qed.

Lemma overlay_identity_below_threshold_witness :
  applyIntimacyPhase (utf16 "報告：親密度は上昇中。") (Some (F64.dec 299 100))
  = utf16 "報告：親密度は上昇中。".
Proof.
  apply overlay_identity_below_threshold. computed.
Defined.

(** ** The familiarity tracker *)

Lemma update_gratitude (m : IntimacyManager) (t : turn) :
  gratitudeOnly t = true -> update m t = thank m.
Proof.
  unfold gratitudeOnly, update, updateIntimacy, thank, raise. cbv zeta.
  intros H. apply andb_true_iff in H as [Hg Ha].
  apply negb_true_iff in Ha. rewrite Hg, Ha. reflexivity.
Qed.

Lemma after_gratitude (calls : list turn) :
  forall m, forallb gratitudeOnly calls = true ->
            after m calls = Nat.iter (length calls) thank m.
Proof.
  induction calls as [|t calls IH]; intros m H; [reflexivity|].
  simpl in H. apply andb_true_iff in H as [Ht H].
  change (after m (t :: calls)) with (after (update m t) calls).
  rewrite (IH _ H), (update_gratitude m t Ht).
  change (length (t :: calls)) with (S (length calls)).
  now rewrite Nat.iter_succ_r.
Qed.

Example level_after_20_succ :
  level_after_20 = SFsucc F64.prec F64.emax (F64.dec 205 100).
Proof. computed. Qed.

(** C3, as the code has it: twenty gratitude turns on a new manager leave
    the level at 2.0500000000000003, the binary64 sum of twenty 0.1 and one
    0.05, which is the value next above 2.05, and the phase at 信頼. *)
Theorem twenty_gratitude_turns (calls : list turn) :
  length calls = 20%nat ->
  forallb gratitudeOnly calls = true ->
  getIntimacyLevel (after fresh calls) = level_after_20
  /\ getPhase (after fresh calls) = Trusting
  /\ phaseName (getPhase (after fresh calls)) = utf16 "信頼".
Proof.
  intros Hlen Hall. rewrite (after_gratitude calls fresh Hall), Hlen.
  split; [computed|split; computed].
Qed.

Lemma twenty_gratitude_turns_witness :
  getIntimacyLevel (after fresh (repeat (utf16 "ありがとう、助かる", utf16 "回答：問題ない。") 20))
  = level_after_20.
Proof.
  refine (proj1 (twenty_gratitude_turns
                   (repeat (utf16 "ありがとう、助かる", utf16 "回答：問題ない。") 20) _ _));
    computed.
Defined.

(** C3 fails as stated: after twenty turns that each say ありがとう the level
    is not equal to 2.05. *)
Lemma twenty_gratitude_turns_not_2_05 :
  ~ (forall calls : list turn,
        length calls = 20%nat ->
        forallb gratitudeOnly calls = true ->
        F64.eqb (getIntimacyLevel (after fresh calls)) (F64.dec 205 100) = true
        /\ getPhase (after fresh calls) = Trusting).
Proof.
  intros H.
  destruct (H (repeat (utf16 "ありがとう", []) 20)) as [Heq _]; [computed|computed|].
  assert (E : F64.eqb (getIntimacyLevel (after fresh (repeat (utf16 "ありがとう", []) 20)))
                (F64.dec 205 100) = false) by computed.
  rewrite E in Heq. discriminate Heq.
Qed.

(** *** Bounds and monotonicity *)

Lemma same_eq (x y : F64.float) : same x y = true -> x = y.
Proof.
  destruct x, y; simpl; try discriminate; intros H.
  - apply Bool.eqb_prop in H. now subst.
  - apply Bool.eqb_prop in H. now subst.
  - reflexivity.
  - apply andb_true_iff in H as [H He]. apply andb_true_iff in H as [Hs Hm].
    apply Bool.eqb_prop in Hs. apply Pos.eqb_eq in Hm. apply Z.eqb_eq in He.
    now subst.
Qed.

Lemma member_In (x : F64.float) (l : list F64.float) :
  member x l = true -> In x l.
Proof.
  unfold member. intros H. apply existsb_exists in H as (y & Hy & Hxy).
  apply same_eq in Hxy. now subst.
Qed.

Lemma reachable_closed : closed reachable = true.
Proof. computed. Qed.

Lemma raise_successor (g a p : bool) (l : F64.float) :
  In (raise g a p l) (successors l).
Proof. destruct g, a, p; simpl; tauto. Qed.

Lemma closed_spec (levels : list F64.float) :
  closed levels = true ->
  forall x, In x levels ->
  forall y, In y (successors x) -> In y levels /\ stepOk x y = true.
Proof.
  unfold closed. intros H x Hx y Hy.
  rewrite forallb_forall in H. specialize (H x Hx).
  rewrite forallb_forall in H. specialize (H y Hy).
  apply andb_true_iff in H as [Hm Hs]. split; [now apply member_In | exact Hs].
Qed.

Lemma raise_reachable (g a p : bool) (l : F64.float) :
  In l reachable ->
  In (raise g a p l) reachable /\ stepOk l (raise g a p l) = true.
Proof.
  intros Hl.
  exact (closed_spec reachable reachable_closed l Hl _ (raise_successor g a p l)).
Qed.

Lemma update_raise (m : IntimacyManager) (t : turn) :
  exists g a p, intimacyLevel (update m t) = raise g a p (intimacyLevel m).
Proof.
  unfold update, updateIntimacy, raise. cbv zeta.
  eexists _, _, _. cbn [intimacyLevel]. reflexivity.
Qed.

Lemma update_invariant (m : IntimacyManager) (t : turn) :
  In (intimacyLevel m) reachable ->
  In (intimacyLevel (update m t)) reachable
  /\ bounded_level (update m t) /\ advances m (update m t).
Proof.
  intros Hm. destruct (update_raise m t) as (g & a & p & E).
  destruct (raise_reachable g a p _ Hm) as [Hin Hok].
  rewrite <- E in Hin, Hok. split; [exact Hin|].
  unfold stepOk in Hok.
  repeat (apply andb_true_iff in Hok as [Hok ?]).
  unfold bounded_level, advances, getIntimacyLevel. repeat split; try assumption.
  apply Nat.leb_le. assumption.
Qed.

Lemma history_invariant (calls : list turn) :
  forall m, In (intimacyLevel m) reachable ->
    Forall bounded_level (history m calls)
    /\ forall i a b,
        nth_error (m :: history m calls) i = Some a ->
        nth_error (history m calls) i = Some b ->
        advances a b.
Proof.
  induction calls as [|t calls IH]; intros m Hm.
  - split; [constructor|]. intros [|i] a b _ H; discriminate H.
  - destruct (update_invariant m t Hm) as (Hin & Hb & Hadv).
    destruct (IH _ Hin) as [Hall Hstep].
    split; [constructor; assumption|].
    intros [|i] a b Ha Hb'; cbn [history nth_error] in Ha, Hb'.
    + injection Ha as <-. injection Hb' as <-. exact Hadv.
    + exact (Hstep i a b Ha Hb').
Qed.

(** C4: along every sequence of calls on a new manager, whatever the
    messages, the level stays between 0 and 5.0 after every call, never
    decreases from one call to the next, and the phase never moves back
    down the ladder 初期, 観察, 信頼, 親密, 感情萌芽. *)
Theorem level_bounded_monotone (calls : list turn) :
  Forall bounded_level (history fresh calls)
  /\ forall i before next,
      nth_error (fresh :: history fresh calls) i = Some before ->
      nth_error (history fresh calls) i = Some next ->
      F64.leb (getIntimacyLevel before) (getIntimacyLevel next) = true
      /\ (rank (getPhase before) <= rank (getPhase next))%nat.
Proof.
  apply history_invariant. apply member_In. computed.
Qed.

(** ** The style transformer *)

Example transform_emotion_word :
  formatToPod021Style (utf16 "今日は楽しい一日だった。") Report
  = utf16 "今日は効率的一日だった。".
Proof. computed. Qed.

(** C9: the response type plays no part in the transformation. *)
Theorem transform_ignores_type (t : str) (c1 c2 : ResponseTypeEnum) :
  formatToPod021Style t c1 = formatToPod021Style t c2.
Proof.
  destruct c1, c2; reflexivity.
Qed.

(** *** Runs of a character class *)

Lemma span_le (p : Z -> bool) (s : str) :
  forall cap, (span p cap s <= length s)%nat.
Proof.
  induction s as [|c r IH]; intros cap; simpl; [lia|].
  destruct cap as [[|n]|]; [lia| |]; destruct (p c); simpl; try lia.
  - specialize (IH (Some n)). lia.
  - specialize (IH None). lia.
Qed.

Lemma span_zero (p : Z -> bool) (s : str) : span p (Some O) s = O.
Proof. destruct s; reflexivity. Qed.

Lemma dropWhile_cons (p : Z -> bool) (c : Z) (r : str) :
  dropWhile p (c :: r) = if p c then dropWhile p r else c :: r.
Proof. unfold dropWhile. simpl. destruct (p c); reflexivity. Qed.

Lemma dropWhile_length (p : Z -> bool) (s : str) :
  (length (dropWhile p s) + span p None s = length s)%nat.
Proof.
  unfold dropWhile. rewrite length_skipn. pose proof (span_le p s None). lia.
Qed.

Lemma headIs_dropWhile (p : Z -> bool) (s : str) :
  headIs p (dropWhile p s) = false.
Proof.
  induction s as [|c r IH]; [reflexivity|].
  rewrite dropWhile_cons. destruct (p c) eqn:E; [exact IH|]. simpl. exact E.
Qed.

Lemma trimStart_dropWhile (s : str) : trimStart s = dropWhile isSpace s.
Proof.
  induction s as [|c r IH]; [reflexivity|].
  rewrite dropWhile_cons. simpl. now rewrite IH.
Qed.

(** *** Replacing runs *)

Lemma replaceFrom_skip (re : regex) (by_ : str) (n : nat) :
  forall s, (n <= length s)%nat ->
            replaceFrom re by_ n s = replaceFrom re by_ 0 (skipn n s).
Proof.
  induction n as [|n IH]; intros s Hn; [reflexivity|].
  destruct s as [|c r]; simpl in Hn; [lia|].
  cbn [replaceFrom skipn]. apply IH. lia.
Qed.

Lemma matchBranch_plus (p : Z -> bool) (s : str) :
  matchBranch [plus p] s
  = match span p None s with
    | O => None
    | S n => Some [firstn (S n) s]
    end.
Proof.
  cbn [matchBranch plus lo hi cls].
  destruct (span p None s) as [|n]; reflexivity.
Qed.

Lemma runs_plus (p : Z -> bool) : runs [[plus p]] p 1.
Proof.
  intros s. cbn [matchHere]. rewrite matchBranch_plus.
  pose proof (span_le p s None) as Hle.
  destruct (span p None s) as [|n] eqn:E; [lia|].
  split; [lia|]. unfold whole. cbn [concat]. rewrite app_nil_r, length_firstn. lia.
Qed.

Lemma matchBranch_cons (a : atom) (b : branch) (s : str) :
  matchBranch (a :: b) s
  = backtrack (lo a)
      (fun k => option_map (cons (firstn k s)) (matchBranch b (skipn k s)))
      (span (cls a) (hi a) s).
Proof. reflexivity. Qed.

Lemma runs_kuten : runs [[unit kuten; plus isKuten]] isKuten 2.
Proof.
  intros s. cbn [matchHere]. rewrite matchBranch_cons. cbn [unit lo hi cls].
  destruct s as [|c r]; [simpl; lia|].
  cbn [span]. rewrite span_zero.
  replace (kuten =? c) with (isKuten c) by apply Z.eqb_sym.
  destruct (isKuten c) eqn:E.
  - cbn [backtrack Nat.ltb Nat.leb skipn firstn].
    rewrite matchBranch_plus.
    pose proof (span_le isKuten r None) as Hle.
    destruct (span isKuten None r) as [|n] eqn:En;
      cbn [option_map backtrack Nat.ltb Nat.leb].
    + lia.
    + split; [lia|]. unfold whole. cbn [concat app length].
      rewrite app_nil_r, length_firstn. lia.
  - cbn. lia.
Qed.

Lemma lastIs_cons (q : Z -> bool) (c : Z) (r : str) :
  lastIs q (c :: r) = match r with [] => q c | _ => lastIs q r end.
Proof. destruct r; reflexivity. Qed.

Lemma lastIs_dropWhile (p q : Z -> bool) (s : str) :
  dropWhile p s <> [] -> lastIs q (dropWhile p s) = lastIs q s.
Proof.
  induction s as [|c r IH]; [reflexivity|].
  rewrite dropWhile_cons. destruct (p c); [|reflexivity].
  intros Hne. rewrite (IH Hne), lastIs_cons.
  destruct r; [now elim Hne | reflexivity].
Qed.

Lemma lastIs_run (p q : Z -> bool) (v : bool) (s : str) :
  (forall x, p x = true -> q x = v) ->
  s <> [] -> dropWhile p s = [] -> lastIs q s = v.
Proof.
  intros Hq. induction s as [|c r IH]; intros Hne Hall; [now elim Hne|].
  rewrite dropWhile_cons in Hall. destruct (p c) eqn:E; [|discriminate].
  rewrite lastIs_cons. destruct r as [|c' r']; [now apply Hq|].
  apply IH; [discriminate | exact Hall].
Qed.

Section RunReplacement.

Variables (re : regex) (p : Z -> bool) (m : nat) (b : Z).
Hypothesis Hruns : runs re p m.
Hypothesis Hm : (1 <= m)%nat.

Lemma replace_nil : replaceAll re [b] [] = [].
Proof.
  unfold replaceAll. cbn [replaceFrom].
  pose proof (Hruns []) as H.
  destruct (matchHere re []); [|reflexivity].
  simpl in H. lia.
Qed.

Lemma replace_run (s : str) :
  (m <= span p None s)%nat ->
  replaceAll re [b] s = b :: replaceAll re [b] (dropWhile p s).
Proof.
  intros Hs. unfold replaceAll, dropWhile.
  pose proof (Hruns s) as H. pose proof (span_le p s None) as Hle.
  destruct s as [|c r]; [simpl in Hs; lia|].
  cbn [replaceFrom]. destruct (matchHere re (c :: r)) as [pieces|]; [|lia].
  destruct H as [_ Hlen]. rewrite Hlen.
  destruct (span p None (c :: r)) as [|n]; [lia|].
  cbn [app skipn]. f_equal. apply replaceFrom_skip. simpl in Hle. lia.
Qed.

Lemma replace_keep (c : Z) (r : str) :
  (span p None (c :: r) < m)%nat ->
  replaceAll re [b] (c :: r) = c :: replaceAll re [b] r.
Proof.
  intros Hs. unfold replaceAll. cbn [replaceFrom].
  pose proof (Hruns (c :: r)) as H.
  destruct (matchHere re (c :: r)); [lia | reflexivity].
Qed.

(** Induction along the way the replacement walks through a string. *)
Lemma run_ind (P : str -> Prop) :
  P [] ->
  (forall s, (m <= span p None s)%nat -> P (dropWhile p s) -> P s) ->
  (forall c r, (span p None (c :: r) < m)%nat -> P r -> P (c :: r)) ->
  forall s, P s.
Proof.
  intros Hnil Hrun Hkeep s.
  remember (length s) as n eqn:En. revert s En.
  induction n as [n IH] using lt_wf_ind. intros s En.
  destruct s as [|c r]; [exact Hnil|].
  destruct (le_lt_dec m (span p None (c :: r))) as [Hge|Hlt].
  - apply Hrun; [exact Hge|].
    apply (IH (length (dropWhile p (c :: r)))); [|reflexivity].
    pose proof (dropWhile_length p (c :: r)). lia.
  - apply Hkeep; [exact Hlt|].
    apply (IH (length r)); [subst n; simpl; lia | reflexivity].
Qed.

Lemma replace_nonempty (s : str) : s <> [] -> replaceAll re [b] s <> [].
Proof.
  intros Hne. destruct s as [|c r]; [now elim Hne|].
  destruct (le_lt_dec m (span p None (c :: r))) as [Hge|Hlt].
  - rewrite (replace_run _ Hge). discriminate.
  - rewrite (replace_keep _ _ Hlt). discriminate.
Qed.

Section ClassKept.

(** A class [q] that cannot tell the replacement from the run it stands
    for. *)
Variable q : Z -> bool.
Hypothesis Hq : forall x, p x = true -> q x = q b.

Lemma headIs_run (s : str) :
  (m <= span p None s)%nat -> headIs q s = q b.
Proof.
  intros Hs. destruct s as [|c r]; [simpl in Hs; lia|].
  simpl in Hs |- *. destruct (p c) eqn:E; [now apply Hq | lia].
Qed.

Lemma headIs_replace (s : str) :
  headIs q (replaceAll re [b] s) = headIs q s.
Proof.
  destruct s as [|c r]; [now rewrite replace_nil|].
  destruct (le_lt_dec m (span p None (c :: r))) as [Hge|Hlt].
  - rewrite (replace_run _ Hge), (headIs_run _ Hge). reflexivity.
  - rewrite (replace_keep _ _ Hlt). reflexivity.
Qed.

Lemma lastIs_replace (s : str) :
  lastIs q (replaceAll re [b] s) = lastIs q s.
Proof.
  induction s as [|s Hs IH|c r Hs IH] using run_ind.
  - now rewrite replace_nil.
  - rewrite (replace_run _ Hs), lastIs_cons.
    assert (Hne : s <> []) by (intros ->; simpl in Hs; lia).
    destruct (dropWhile p s) as [|d ds] eqn:Ed.
    + rewrite replace_nil. symmetry. now apply (lastIs_run p).
    + destruct (replaceAll re [b] (d :: ds)) eqn:Er.
      * now apply replace_nonempty in Er.
      * rewrite IH, <- Ed. apply lastIs_dropWhile. rewrite Ed. discriminate.
  - rewrite (replace_keep _ _ Hs), !lastIs_cons, IH.
    destruct r as [|c' r']; [now rewrite replace_nil|].
    destruct (replaceAll re [b] (c' :: r')) eqn:Er; [|reflexivity].
    now apply replace_nonempty in Er.
Qed.

End ClassKept.

End RunReplacement.

(** *** The terminal mark and white space *)

Lemma includes_kk_nil : includes [] [kuten; kuten] = false.
Proof. reflexivity. Qed.

Lemma includes_kk_cons (a : Z) (r : str) :
  includes (a :: r) [kuten; kuten]
  = (isKuten a && headIs isKuten r) || includes r [kuten; kuten].
Proof.
  cbn [includes startsWith]. f_equal. unfold isKuten.
  destruct r as [|c r']; cbn [startsWith headIs]; [reflexivity|].
  destruct r'; now rewrite andb_true_r.
Qed.

Lemma includes_kk_dropWhile (p : Z -> bool) (s : str) :
  includes s [kuten; kuten] = false ->
  includes (dropWhile p s) [kuten; kuten] = false.
Proof.
  induction s as [|c r IH]; [trivial|].
  rewrite dropWhile_cons. destruct (p c); [|trivial].
  rewrite includes_kk_cons. intros H. apply orb_false_iff in H as [_ H]. auto.
Qed.

Lemma wsNormal_dropWhile (p : Z -> bool) (s : str) :
  wsNormal s = true -> wsNormal (dropWhile p s) = true.
Proof.
  induction s as [|c r IH]; [trivial|].
  rewrite dropWhile_cons. destruct (p c); [|trivial].
  cbn [wsNormal]. intros H. apply andb_true_iff in H as [_ H]. auto.
Qed.

Lemma dropWhile_id (p : Z -> bool) (s : str) :
  headIs p s = false -> dropWhile p s = s.
Proof.
  destruct s as [|c r]; [reflexivity|]. rewrite dropWhile_cons. simpl.
  now intros ->.
Qed.

Lemma space_not_kuten (x : Z) : isSpace x = true -> isKuten x = false.
Proof.
  intros Hx. unfold isKuten. destruct (x =? kuten) eqn:E; [|reflexivity].
  apply Z.eqb_eq in E. subst x. discriminate Hx.
Qed.

Lemma kuten_not_space (x : Z) : isKuten x = true -> isSpace x = false.
Proof.
  intros Hx. destruct (isSpace x) eqn:E; [|reflexivity].
  apply space_not_kuten in E. congruence.
Qed.

Lemma lastIs_app (q : Z -> bool) (s : str) (c : Z) : lastIs q (s ++ [c]) = q c.
Proof.
  induction s as [|a s IH]; [reflexivity|].
  change ((a :: s) ++ [c]) with (a :: (s ++ [c])).
  rewrite lastIs_cons, IH. now destruct s.
Qed.

Lemma endsWith_kuten (s : str) : endsWith s [kuten] = lastIs isKuten s.
Proof.
  unfold endsWith. change (rev [kuten]) with [kuten].
  destruct s as [|a s] using rev_ind; [reflexivity|].
  rewrite rev_app_distr, lastIs_app. cbn [rev app startsWith].
  unfold isKuten. destruct (rev s); now rewrite andb_true_r.
Qed.

Lemma assertiveEnding_last (s : str) :
  lastIs isKuten (assertiveEnding s) = true.
Proof.
  unfold assertiveEnding. rewrite endsWith_kuten.
  destruct (lastIs isKuten s) eqn:E; cbn [negb]; [exact E|].
  rewrite lastIs_app. apply Z.eqb_refl.
Qed.

Lemma assertiveEnding_id (s : str) :
  lastIs isKuten s = true -> assertiveEnding s = s.
Proof.
  intros H. unfold assertiveEnding. now rewrite endsWith_kuten, H.
Qed.

(** *** [collapseKuten] *)

Lemma kuten_kept (x : Z) : isKuten x = true -> isKuten x = isKuten kuten.
Proof. now intros ->. Qed.

Lemma collapseKuten_nil : collapseKuten [] = [].
Proof. apply (replace_nil _ _ _ _ runs_kuten). lia. Qed.

Lemma collapseKuten_run (s : str) :
  (2 <= span isKuten None s)%nat ->
  collapseKuten s = kuten :: collapseKuten (dropWhile isKuten s).
Proof. apply (replace_run _ _ _ _ runs_kuten). lia. Qed.

Lemma collapseKuten_keep (c : Z) (r : str) :
  (span isKuten None (c :: r) < 2)%nat ->
  collapseKuten (c :: r) = c :: collapseKuten r.
Proof. apply (replace_keep _ _ _ _ runs_kuten). lia. Qed.

Lemma collapseKuten_head (s : str) :
  headIs isKuten (collapseKuten s) = headIs isKuten s.
Proof.
  apply (headIs_replace _ _ _ _ runs_kuten); [lia | exact kuten_kept].
Qed.

Lemma collapseKuten_last (s : str) :
  lastIs isKuten (collapseKuten s) = lastIs isKuten s.
Proof.
  apply (lastIs_replace _ _ _ _ runs_kuten); [lia | exact kuten_kept].
Qed.

Lemma kuten_ind (P : str -> Prop) :
  P [] ->
  (forall s, (2 <= span isKuten None s)%nat -> P (dropWhile isKuten s) -> P s) ->
  (forall c r, (span isKuten None (c :: r) < 2)%nat -> P r -> P (c :: r)) ->
  forall s, P s.
Proof. apply run_ind. lia. Qed.

Lemma span_kk (s : str) :
  (2 <= span isKuten None s)%nat -> includes s [kuten; kuten] = true.
Proof.
  destruct s as [|a r]; [simpl; lia|].
  rewrite includes_kk_cons. cbn [span].
  destruct (isKuten a); [|lia]. destruct r as [|c r']; [simpl; lia|].
  cbn [span headIs]. destruct (isKuten c); [reflexivity | lia].
Qed.

Lemma kk_span (c : Z) (r : str) :
  (span isKuten None (c :: r) < 2)%nat -> isKuten c && headIs isKuten r = false.
Proof.
  simpl. destruct (isKuten c); [|reflexivity].
  destruct r as [|c' r']; [reflexivity|]. simpl. destruct (isKuten c'); [lia|reflexivity].
Qed.

Lemma collapseKuten_single (s : str) :
  includes (collapseKuten s) [kuten; kuten] = false.
Proof.
  induction s as [|s Hs IH|c r Hs IH] using kuten_ind.
  - now rewrite collapseKuten_nil.
  - rewrite (collapseKuten_run s Hs), includes_kk_cons, IH, orb_false_r.
    rewrite collapseKuten_head, headIs_dropWhile. apply andb_false_r.
  - rewrite (collapseKuten_keep c r Hs), includes_kk_cons, IH, orb_false_r.
    rewrite collapseKuten_head. now apply kk_span.
Qed.

Lemma collapseKuten_id (s : str) :
  includes s [kuten; kuten] = false -> collapseKuten s = s.
Proof.
  induction s as [|s Hs IH|c r Hs IH] using kuten_ind; intros H.
  - apply collapseKuten_nil.
  - apply span_kk in Hs. congruence.
  - rewrite (collapseKuten_keep c r Hs).
    rewrite includes_kk_cons in H. apply orb_false_iff in H as [_ H].
    now rewrite IH.
Qed.

(** *** [collapseSpace] *)

Lemma runs_space : runs [[plus isSpace]] isSpace 1.
Proof. apply runs_plus. Qed.

Lemma space_kept_kuten (x : Z) : isSpace x = true -> isKuten x = isKuten 32.
Proof. intros Hx. now rewrite (space_not_kuten x Hx). Qed.

Lemma space_kept (x : Z) : isSpace x = true -> isSpace x = isSpace 32.
Proof. now intros ->. Qed.

Lemma collapseSpace_nil : collapseSpace [] = [].
Proof. apply (replace_nil _ _ _ _ runs_space). lia. Qed.

Lemma collapseSpace_run (s : str) :
  (1 <= span isSpace None s)%nat ->
  collapseSpace s = 32 :: collapseSpace (dropWhile isSpace s).
Proof. apply (replace_run _ _ _ _ runs_space). lia. Qed.

Lemma collapseSpace_keep (c : Z) (r : str) :
  (span isSpace None (c :: r) < 1)%nat ->
  collapseSpace (c :: r) = c :: collapseSpace r.
Proof. apply (replace_keep _ _ _ _ runs_space). lia. Qed.

Lemma collapseSpace_head (q : Z -> bool) (s : str) :
  (forall x, isSpace x = true -> q x = q 32) ->
  headIs q (collapseSpace s) = headIs q s.
Proof.
  intros Hq. apply (headIs_replace _ _ _ _ runs_space); [lia | exact Hq].
Qed.

Lemma collapseSpace_last (s : str) :
  lastIs isKuten (collapseSpace s) = lastIs isKuten s.
Proof.
  apply (lastIs_replace _ _ _ _ runs_space); [lia | exact space_kept_kuten].
Qed.

Lemma space_ind (P : str -> Prop) :
  P [] ->
  (forall s, (1 <= span isSpace None s)%nat -> P (dropWhile isSpace s) -> P s) ->
  (forall c r, (span isSpace None (c :: r) < 1)%nat -> P r -> P (c :: r)) ->
  forall s, P s.
Proof. apply run_ind. lia. Qed.

Lemma collapseSpace_single (s : str) :
  includes s [kuten; kuten] = false ->
  includes (collapseSpace s) [kuten; kuten] = false.
Proof.
  induction s as [|s Hs IH|c r Hs IH] using space_ind; intros H.
  - now rewrite collapseSpace_nil.
  - rewrite (collapseSpace_run s Hs), includes_kk_cons.
    change (isKuten 32) with false. cbn [andb orb].
    apply IH. now apply includes_kk_dropWhile.
  - rewrite (collapseSpace_keep c r Hs).
    rewrite includes_kk_cons in H |- *. apply orb_false_iff in H as [Hc H].
    now rewrite (collapseSpace_head _ _ space_kept_kuten), Hc, IH.
Qed.

Lemma collapseSpace_normal (s : str) : wsNormal (collapseSpace s) = true.
Proof.
  induction s as [|s Hs IH|c r Hs IH] using space_ind.
  - now rewrite collapseSpace_nil.
  - rewrite (collapseSpace_run s Hs).
    cbn [wsNormal]. change (isSpace 32) with true. cbv iota.
    now rewrite (collapseSpace_head _ _ space_kept), headIs_dropWhile, IH.
  - rewrite (collapseSpace_keep c r Hs).
    cbn [wsNormal]. rewrite IH, andb_true_r.
    simpl in Hs. destruct (isSpace c); [lia | reflexivity].
Qed.

Lemma collapseSpace_id (s : str) : wsNormal s = true -> collapseSpace s = s.
Proof.
  induction s as [|s Hs IH|c r Hs IH] using space_ind; intros H.
  - apply collapseSpace_nil.
  - rewrite (collapseSpace_run s Hs).
    rewrite IH by now apply wsNormal_dropWhile.
    destruct s as [|c r]; [simpl in Hs; lia|].
    cbn [wsNormal] in H. rewrite dropWhile_cons.
    simpl in Hs. destruct (isSpace c); [|lia].
    apply andb_true_iff in H as [H _]. apply andb_true_iff in H as [Hc Hr].
    apply Z.eqb_eq in Hc. apply negb_true_iff in Hr.
    now rewrite (dropWhile_id _ _ Hr), Hc.
  - rewrite (collapseSpace_keep c r Hs).
    cbn [wsNormal] in H. apply andb_true_iff in H as [_ H]. now rewrite IH.
Qed.

(** *** [trim] *)

Lemma trimEnd_id (s : str) : lastIs isKuten s = true -> trimEnd s = s.
Proof.
  induction s as [|c r IH]; [reflexivity|].
  rewrite lastIs_cons. cbn [trimEnd]. destruct r as [|c' r'].
  - intros Hc. cbn [trimEnd]. now rewrite (kuten_not_space c Hc).
  - intros Hr. now rewrite (IH Hr).
Qed.

Lemma trimStart_last (s : str) :
  lastIs isKuten s = true -> lastIs isKuten (trimStart s) = true.
Proof.
  intros H. rewrite trimStart_dropWhile.
  destruct (dropWhile isSpace s) eqn:E.
  - assert (Hne : s <> []) by (intros ->; discriminate H).
    rewrite (lastIs_run isSpace isKuten false s space_not_kuten Hne E) in H.
    discriminate H.
  - rewrite <- E, lastIs_dropWhile; [exact H | rewrite E; discriminate].
Qed.

Lemma trim_kept (s : str) :
  lastIs isKuten s = true -> trim s = dropWhile isSpace s.
Proof.
  intros H. unfold trim. rewrite trimEnd_id by now apply trimStart_last.
  apply trimStart_dropWhile.
Qed.

(** *** Substitution, then normalization *)

Lemma transform_split (t : str) (c : ResponseTypeEnum) :
  formatToPod021Style t c = normalizeEnding (substitute t).
Proof. reflexivity. Qed.

Lemma normalizeEnding_normalized (s : str) : normalized (normalizeEnding s).
Proof.
  unfold normalizeEnding, simplifyRedundancy.
  set (z := collapseSpace (collapseKuten (assertiveEnding s))).
  assert (Hz : lastIs isKuten z = true).
  { unfold z. rewrite collapseSpace_last, collapseKuten_last.
    apply assertiveEnding_last. }
  rewrite (trim_kept z Hz). split.
  - rewrite <- trimStart_dropWhile. now apply trimStart_last.
  - apply includes_kk_dropWhile, collapseSpace_single, collapseKuten_single.
  - apply wsNormal_dropWhile, collapseSpace_normal.
  - apply headIs_dropWhile.
Qed.

Lemma normalizeEnding_fixes (y : str) : normalized y -> normalizeEnding y = y.
Proof.
  intros [Hlast Hkk Hws Hhead]. unfold normalizeEnding, simplifyRedundancy.
  rewrite (assertiveEnding_id y Hlast), (collapseKuten_id y Hkk),
    (collapseSpace_id y Hws), (trim_kept y Hlast).
  now apply dropWhile_id.
Qed.

(** C10: whatever the input and the response type, the transformer returns
    a non-empty string that ends with the terminal mark 。 and has no two
    marks in a row, so it ends with exactly one; the empty input gives the
    mark alone. *)
Theorem transform_ends_with_one_mark (t : str) (c : ResponseTypeEnum) :
  formatToPod021Style t c <> []
  /\ endsWith (formatToPod021Style t c) [kuten] = true
  /\ includes (formatToPod021Style t c) [kuten; kuten] = false
  /\ formatToPod021Style [] c = [kuten].
Proof.
  rewrite transform_split.
  destruct (normalizeEnding_normalized (substitute t)) as [Hlast Hkk _ _].
  split; [|split; [|split]].
  - intros E. rewrite E in Hlast. discriminate Hlast.
  - now rewrite endsWith_kuten.
  - exact Hkk.
  - reflexivity.
Qed.

(** C1, as the code has it: the normalization of the ending (the mark
    appended when missing, marks and white space collapsed, the ends
    trimmed) is idempotent, and so is the transformer on every input whose
    output the substitution passes leave as it is. *)
Theorem normalization_idempotent :
  (forall s, normalizeEnding (normalizeEnding s) = normalizeEnding s)
  /\ (forall t c,
         substitute (formatToPod021Style t c) = formatToPod021Style t c ->
         formatToPod021Style (formatToPod021Style t c) c = formatToPod021Style t c).
Proof.
  split.
  - intros s. apply normalizeEnding_fixes, normalizeEnding_normalized.
  - intros t c Hfix. rewrite (transform_split (formatToPod021Style t c) c), Hfix.
    rewrite transform_split.
    apply normalizeEnding_fixes, normalizeEnding_normalized.
Qed.

Lemma normalization_idempotent_witness :
  formatToPod021Style (formatToPod021Style (utf16 "今日は楽しい一日だった。") Report) Report
  = formatToPod021Style (utf16 "今日は楽しい一日だった。") Report.
Proof.
  apply (proj2 normalization_idempotent). computed.
Defined.

(** C1 fails as stated: removing ありがとう from "でありがとうす" leaves "です",
    so the first application returns "です。" and the second "。". *)
Example transform_twice :
  formatToPod021Style (utf16 "でありがとうす") Report = utf16 "です。"
  /\ formatToPod021Style (utf16 "です。") Report = utf16 "。".
Proof. split; computed. Qed.

Lemma transform_not_idempotent :
  ~ (forall t c,
        formatToPod021Style (formatToPod021Style t c) c = formatToPod021Style t c).
Proof.
  intros H. specialize (H (utf16 "でありがとうす") Report).
  vm_compute in H. discriminate H.
Qed.

(** * Further properties *)

(** ** Matches *)

Lemma backtrack_some {A : Type} (low : nat) (try : nat -> option A) (r : A) :
  forall k, backtrack low try k = Some r ->
            exists j, (low <= j <= k)%nat /\ try j = Some r.
Proof.
  induction k as [|k IH]; cbn [backtrack]; intros H.
  - destruct (0 <? low)%nat eqn:E; [discriminate|]. apply Nat.ltb_ge in E.
    destruct (try 0%nat) eqn:T; [|discriminate].
    exists 0%nat. split; [lia | congruence].
  - destruct (S k <? low)%nat eqn:E; [discriminate|]. apply Nat.ltb_ge in E.
    destruct (try (S k)) eqn:T.
    + exists (S k). split; [lia | congruence].
    + destruct (IH H) as (j & Hj & Tj). exists j. split; [lia | exact Tj].
Qed.

Lemma span_forallb (p : Z -> bool) (s : str) :
  forall cap j, (j <= span p cap s)%nat -> forallb p (firstn j s) = true.
Proof.
  induction s as [|c r IH]; intros cap j Hj.
  - now rewrite firstn_nil.
  - destruct j as [|j]; [reflexivity|].
    cbn [span] in Hj. cbn [firstn forallb].
    destruct cap as [[|n]|]; [lia| |]; destruct (p c); try lia; cbn [andb].
    + apply (IH (Some n)). lia.
    + apply (IH None). lia.
Qed.

(** A match of a branch is what the text begins with. *)
Lemma matchBranch_prefix (b : branch) :
  forall s m, matchBranch b s = Some m ->
              s = whole m ++ skipn (length (whole m)) s.
Proof.
  induction b as [|a b IH]; intros s m H.
  - injection H as <-. reflexivity.
  - rewrite matchBranch_cons in H.
    apply backtrack_some in H as (j & Hj & T).
    destruct (matchBranch b (skipn j s)) as [segs|] eqn:E; [|discriminate].
    injection T as <-. apply IH in E.
    pose proof (span_le (cls a) s (hi a)) as Hle.
    unfold whole in *. cbn [concat]. rewrite length_app, length_firstn.
    replace (Nat.min j (length s)) with j by lia.
    rewrite (Nat.add_comm j), <- skipn_skipn, <- app_assoc, <- E.
    apply eq_sym, firstn_skipn.
Qed.

(** A branch that begins with a class taken at least once matches text that
    begins with a unit of that class. *)
Lemma matchBranch_head (a : atom) (b : branch) (s : str) (m : list str) :
  (1 <= lo a)%nat ->
  matchBranch (a :: b) s = Some m -> headIs (cls a) (whole m) = true.
Proof.
  intros Hlo H. rewrite matchBranch_cons in H.
  apply backtrack_some in H as (j & Hj & T).
  destruct (matchBranch b (skipn j s)) as [segs|]; [|discriminate].
  injection T as <-. unfold whole. cbn [concat].
  pose proof (span_forallb (cls a) s (hi a) j ltac:(lia)) as Hall.
  pose proof (span_le (cls a) s (hi a)) as Hle.
  destruct s as [|c r]; [simpl in Hle, Hj; lia|].
  destruct j as [|j]; [lia|]. cbn [firstn app headIs].
  cbn [firstn forallb] in Hall. now apply andb_true_iff in Hall as [Hc _].
Qed.

Lemma matchHere_branch (re : regex) (s : str) (m : list str) :
  matchHere re s = Some m -> exists b, In b re /\ matchBranch b s = Some m.
Proof.
  induction re as [|b re IH]; [discriminate|]. cbn [matchHere].
  destruct (matchBranch b s) as [m'|] eqn:E.
  - intros [= <-]. exists b. split; [now left | exact E].
  - intros H. destruct (IH H) as (b' & Hin & Hb). exists b'. split; [now right | exact Hb].
Qed.

Lemma exec_some (re : regex) (s : str) (m : list str) :
  exec re s = Some m ->
  exists pre post, s = pre ++ post /\ matchHere re post = Some m.
Proof.
  induction s as [|c r IH]; cbn [exec].
  - destruct (matchHere re []) eqn:E; [|discriminate].
    intros [= <-]. exists [], []. split; [reflexivity | exact E].
  - destruct (matchHere re (c :: r)) eqn:E.
    + intros [= <-]. exists [], (c :: r). split; [reflexivity | exact E].
    + intros H. destruct (IH H) as (pre & post & -> & Hm).
      exists (c :: pre), post. split; [reflexivity | exact Hm].
Qed.

Lemma startsWith_app (q rest : str) : startsWith (q ++ rest) q = true.
Proof.
  induction q as [|a q IH]; [now destruct rest|].
  cbn [app startsWith]. now rewrite Z.eqb_refl, IH.
Qed.

Lemma includes_app (pre q rest : str) : includes (pre ++ q ++ rest) q = true.
Proof.
  induction pre as [|c pre IH].
  - cbn [app]. destruct (q ++ rest) eqn:E; cbn [includes];
      rewrite <- E, startsWith_app; reflexivity.
  - cbn [app includes]. rewrite IH. apply orb_true_r.
Qed.

(** The text of the leftmost match occurs in the string. *)
Lemma exec_includes (re : regex) (s : str) (m : list str) :
  exec re s = Some m -> includes s (whole m) = true.
Proof.
  intros H. apply exec_some in H as (pre & post & -> & Hm).
  apply matchHere_branch in Hm as (b & _ & Hb).
  rewrite (matchBranch_prefix b post m Hb). apply includes_app.
Qed.

(** ** The extractor: what an annotation quotes *)

Lemma matchBranch_unit (c : Z) (s : str) :
  matchBranch [unit c] s
  = match s with
    | x :: _ => if c =? x then Some [[x]] else None
    | [] => None
    end.
Proof.
  rewrite matchBranch_cons. cbn [unit lo hi cls].
  destruct s as [|x r]; [reflexivity|]. cbn [span].
  destruct (c =? x); [|reflexivity]. now rewrite span_zero.
Qed.

Lemma countPattern_match (post : str) (m : list str) :
  matchHere countPattern post = Some m ->
  exists d rest,
    m = [d; utf16 "件"] /\ d <> [] /\ forallb isDigit d = true
    /\ post = d ++ utf16 "件" ++ rest.
Proof.
  intros H. apply matchHere_branch in H as (b & [<-|[]] & Hb).
  change (plus isDigit :: lit (utf16 "件")) with [plus isDigit; unit 20214] in Hb.
  change (utf16 "件") with [20214].
  rewrite matchBranch_cons in Hb. cbn [plus lo hi cls] in Hb.
  apply backtrack_some in Hb as (j & Hj & T).
  rewrite matchBranch_unit in T.
  pose proof (span_le isDigit post None) as Hle.
  pose proof (span_forallb isDigit post None j ltac:(lia)) as Hall.
  destruct (skipn j post) as [|x rest] eqn:E; [discriminate|].
  destruct (20214 =? x) eqn:Ex; [|discriminate].
  apply Z.eqb_eq in Ex. subst x. injection T as <-.
  exists (firstn j post), rest. repeat split.
  - intros E0. apply (f_equal (@length Z)) in E0.
    rewrite length_firstn in E0. simpl in E0. lia.
  - exact Hall.
  - cbn [app]. rewrite <- E. apply eq_sym, firstn_skipn.
Qed.

(** What the extractor computes for each class of types. *)
Lemma extract_count (text : str) (type : ResponseTypeEnum) :
  type = Acknowledgment \/ type = Report ->
  extractAdditionalInfo text type
  = match exec countPattern text with
    | Some m => Some (utf16 "【現在" ++ nth 0 m [] ++ utf16 "件】")
    | None => None
    end.
Proof.
  intros [-> | ->]; unfold extractAdditionalInfo;
    destruct (exec countPattern text), (exec timePattern text),
      (exec dataPattern text); reflexivity.
Qed.

Lemma extract_time (text : str) :
  extractAdditionalInfo text Understanding
  = match exec timePattern text with
    | Some m => Some (utf16 "【" ++ whole m ++ utf16 "に実行】")
    | None => None
    end.
Proof.
  unfold extractAdditionalInfo.
  destruct (exec countPattern text), (exec timePattern text),
    (exec dataPattern text); reflexivity.
Qed.

Lemma extract_data (text : str) :
  extractAdditionalInfo text Analysis
  = match exec dataPattern text with
    | Some m => Some (utf16 "【データ量: " ++ whole m ++ utf16 "】")
    | None => None
    end.
Proof.
  unfold extractAdditionalInfo.
  destruct (exec countPattern text), (exec timePattern text),
    (exec dataPattern text); reflexivity.
Qed.

Lemma extract_other (text : str) (type : ResponseTypeEnum) :
  type = Suggestion \/ type = Answer \/ type = Warning \/ type = Confirmation ->
  extractAdditionalInfo text type = None.
Proof.
  intros [-> | [-> | [-> | ->]]]; unfold extractAdditionalInfo;
    destruct (exec countPattern text), (exec timePattern text),
      (exec dataPattern text); reflexivity.
Qed.

(** X1: a count annotation, given for the types 承認 and 報告, quotes a
    non-empty run of digits that stands in the text right before 件. *)
Theorem count_annotation_quotes_digits (text : str) (type : ResponseTypeEnum)
    (a : str) :
  type = Acknowledgment \/ type = Report ->
  extractAdditionalInfo text type = Some a ->
  exists d,
    d <> [] /\ forallb isDigit d = true
    /\ a = utf16 "【現在" ++ d ++ utf16 "件】"
    /\ includes text (d ++ utf16 "件") = true.
Proof.
  intros Htype H. rewrite (extract_count text type Htype) in H.
  destruct (exec countPattern text) as [m|] eqn:E; [|discriminate].
  injection H as <-.
  apply exec_some in E as (pre & post & -> & Hm).
  apply countPattern_match in Hm as (d & rest & -> & Hd & Hall & ->).
  exists d. repeat split; try assumption.
  rewrite (app_assoc d). apply includes_app.
Qed.

Lemma count_annotation_quotes_digits_witness :
  exists d,
    d <> [] /\ forallb isDigit d = true
    /\ utf16 "【現在10件】" = utf16 "【現在" ++ d ++ utf16 "件】"
    /\ includes (utf16 "現在10件registered.") (d ++ utf16 "件") = true.
Proof.
  apply (count_annotation_quotes_digits (utf16 "現在10件registered.") Acknowledgment).
  - now left.
  - computed.
Defined.

Lemma digit_led (re : regex) (text : str) (m : list str) :
  Forall (fun b => exists n k b', b = rep isDigit (S n) k :: b'
                                 \/ b = plus isDigit :: b') re ->
  exec re text = Some m ->
  headIs isDigit (whole m) = true /\ includes text (whole m) = true.
Proof.
  intros Hre H. split; [|now apply exec_includes in H].
  apply exec_some in H as (pre & post & _ & Hm).
  apply matchHere_branch in Hm as (b & Hin & Hb).
  rewrite Forall_forall in Hre. destruct (Hre b Hin) as (n & k & b' & [-> | ->]).
  - apply (matchBranch_head (rep isDigit (S n) k) b' post m); [cbn; lia | exact Hb].
  - apply (matchBranch_head (plus isDigit) b' post m); [cbn; lia | exact Hb].
Qed.

Lemma timePattern_digit_led :
  Forall (fun b => exists n k b', b = rep isDigit (S n) k :: b'
                                 \/ b = plus isDigit :: b') timePattern.
Proof.
  repeat constructor.
  - exists 0%nat, 2%nat, (lit (utf16 "時") ++ [rep isDigit 1 2] ++ lit (utf16 "分")).
    now left.
  - exists 0%nat, 2%nat, (lit (utf16 ":") ++ [rep isDigit 2 2]). now left.
Qed.

Lemma dataPattern_digit_led :
  Forall (fun b => exists n k b', b = rep isDigit (S n) k :: b'
                                 \/ b = plus isDigit :: b') dataPattern.
Proof.
  repeat constructor.
  - exists 0%nat, 0%nat, ([opt (Z.eqb 46); star isDigit] ++ lit (utf16 "MB")). now right.
  - exists 0%nat, 0%nat, ([opt (Z.eqb 46); star isDigit] ++ lit (utf16 "GB")). now right.
  - exists 0%nat, 0%nat, (lit (utf16 "個")). now right.
Qed.

(** X2: a time annotation (type 了解) and a data annotation (type 分析)
    quote a piece of the text that begins with a digit. *)
Theorem time_and_data_annotations_quote_text (text a : str) :
  (extractAdditionalInfo text Understanding = Some a ->
   exists q, headIs isDigit q = true /\ includes text q = true
             /\ a = utf16 "【" ++ q ++ utf16 "に実行】")
  /\ (extractAdditionalInfo text Analysis = Some a ->
      exists q, headIs isDigit q = true /\ includes text q = true
                /\ a = utf16 "【データ量: " ++ q ++ utf16 "】").
Proof.
  split; intros H.
  - rewrite extract_time in H.
    destruct (exec timePattern text) as [m|] eqn:Em; [|discriminate].
    injection H as <-. exists (whole m).
    destruct (digit_led _ _ _ timePattern_digit_led Em). auto.
  - rewrite extract_data in H.
    destruct (exec dataPattern text) as [m|] eqn:Em; [|discriminate].
    injection H as <-. exists (whole m).
    destruct (digit_led _ _ _ dataPattern_digit_led Em). auto.
Qed.

Lemma time_and_data_annotations_quote_text_witness :
  (exists q, headIs isDigit q = true
             /\ includes (utf16 "12時5分に開始する") q = true
             /\ utf16 "【12時5分に実行】" = utf16 "【" ++ q ++ utf16 "に実行】")
  /\ (exists q, headIs isDigit q = true
                /\ includes (utf16 "ログは12.5MBある") q = true
                /\ utf16 "【データ量: 12.5MB】" = utf16 "【データ量: " ++ q ++ utf16 "】").
Proof.
  split.
  - apply (proj1 (time_and_data_annotations_quote_text
                    (utf16 "12時5分に開始する") (utf16 "【12時5分に実行】"))).
    computed.
  - apply (proj2 (time_and_data_annotations_quote_text
                    (utf16 "ログは12.5MBある") (utf16 "【データ量: 12.5MB】"))).
    computed.
Defined.

(** ** The transformer: text without the words it looks for *)

Lemma matchBranch_lit_none (w : str) (tail : branch) :
  forall s, w <> [] -> startsWith s w = false ->
            matchBranch (lit w ++ tail) s = None.
Proof.
  induction w as [|a w IH]; intros s Hne Hs; [now elim Hne|].
  change (lit (a :: w) ++ tail) with (unit a :: (lit w ++ tail)).
  rewrite matchBranch_cons. cbn [unit lo hi cls].
  destruct s as [|c r]; [reflexivity|]. cbn [span].
  rewrite (Z.eqb_sym a c). cbn [startsWith] in Hs.
  destruct (c =? a); [|reflexivity]. cbn [andb] in Hs.
  rewrite span_zero. cbn [backtrack Nat.ltb Nat.leb skipn].
  destruct w as [|b w]; [now destruct r|].
  rewrite (IH r) by (discriminate || exact Hs). reflexivity.
Qed.

Lemma replace_none (re : regex) (by_ : str) (s : str) :
  (forall i, matchHere re (skipn i s) = None) -> replaceAll re by_ s = s.
Proof.
  unfold replaceAll. induction s as [|c r IH]; intros H;
    pose proof (H 0%nat) as H0; cbn [skipn] in H0;
    cbn [replaceFrom]; rewrite H0; [reflexivity|].
  f_equal. apply IH. intros i. exact (H (S i)).
Qed.

Lemma includes_skipn (w : str) (s : str) :
  includes s w = false -> forall i, startsWith (skipn i s) w = false.
Proof.
  induction s as [|c r IH]; intros H i.
  - rewrite skipn_nil. cbn [includes] in H. now apply orb_false_iff in H as [H _].
  - cbn [includes] in H. apply orb_false_iff in H as [H0 Hr].
    destruct i as [|i]; [exact H0 | exact (IH Hr i)].
Qed.

(** A pass whose word does not occur changes nothing. *)
Lemma replace_absent (w : str) (tail : branch) (by_ s : str) :
  (0 <? length w)%nat = true ->
  includes s w = false -> replaceAll [lit w ++ tail] by_ s = s.
Proof.
  intros Hw Hs. apply replace_none. intros i. cbn [matchHere].
  rewrite matchBranch_lit_none; [reflexivity| |now apply includes_skipn].
  intros ->. discriminate Hw.
Qed.

Lemma replace_word_absent (w : str) (by_ s : str) :
  (0 <? length w)%nat = true ->
  includes s w = false -> replaceAll [lit w] by_ s = s.
Proof.
  intros Hw Hs. rewrite <- (app_nil_r (lit w)). now apply replace_absent.
Qed.

Lemma In_computed (w : str) (l : list str) :
  (if in_dec (list_eq_dec Z.eq_dec) w l then true else false) = true -> In w l.
Proof. destruct (in_dec (list_eq_dec Z.eq_dec) w l); [trivial | discriminate]. Qed.

Ltac pass_absent t H :=
  match goal with
  | |- context [replaceAll [lit ?w ++ ?tail] ?by_ t] =>
      rewrite (replace_absent w tail by_ t
                 ltac:(computed) (H w (In_computed w _ ltac:(computed))))
  | |- context [replaceAll [lit ?w] ?by_ t] =>
      rewrite (replace_word_absent w by_ t
                 ltac:(computed) (H w (In_computed w _ ltac:(computed))))
  end.

Lemma substitute_absent (t : str) :
  (forall w, In w substitutionWords -> includes t w = false) ->
  substitute t = t.
Proof.
  intros H.
  unfold substitute, podExpressions, convertEmotions, removePoliteness,
    politeEnding, word.
  cbv zeta. do 22 (pass_absent t H). reflexivity.
Qed.

(** X3: a text in which none of the twenty-two words of the substitution
    passes occurs is only normalized at its end; when it is already in
    normal form (no white space at its ends, single plain spaces, a single
    terminal mark at the end and no two in a row) it comes back as it is. *)
Theorem transform_without_words (t : str) (c : ResponseTypeEnum) :
  (forall w, In w substitutionWords -> includes t w = false) ->
  formatToPod021Style t c = normalizeEnding t
  /\ (normalized t -> formatToPod021Style t c = t).
Proof.
  intros H. rewrite transform_split, (substitute_absent t H).
  split; [reflexivity | apply normalizeEnding_fixes].
Qed.

Lemma transform_without_words_witness :
  formatToPod021Style (utf16 "任務を開始する。") Warning = utf16 "任務を開始する。".
Proof.
  refine (proj2 (transform_without_words (utf16 "任務を開始する。") Warning _) _).
  - intros w Hw. simpl in Hw.
    repeat (destruct Hw as [<-|Hw]; [computed|]). destruct Hw.
  - split; computed.
Defined.

(** ** The transformer: white space in its output *)

Lemma wsNormal_In (s : str) (x : Z) :
  wsNormal s = true -> In x s -> isSpace x = true -> x = 32.
Proof.
  induction s as [|c r IH]; intros H Hin Hx; [destruct Hin|].
  cbn [wsNormal] in H. apply andb_true_iff in H as [Hc Hr].
  destruct Hin as [->|Hin]; [|now apply IH].
  rewrite Hx in Hc. apply andb_true_iff in Hc as [Hc _]. now apply Z.eqb_eq.
Qed.

Lemma wsNormal_no_double (s : str) :
  wsNormal s = true -> includes s [32; 32] = false.
Proof.
  induction s as [|c r IH]; intros H; [reflexivity|].
  cbn [wsNormal] in H. apply andb_true_iff in H as [Hc Hr].
  cbn [includes]. rewrite (IH Hr), orb_false_r. cbn [startsWith].
  destruct (c =? 32) eqn:E; [|reflexivity]. apply Z.eqb_eq in E. subst c.
  change (isSpace 32) with true in Hc. cbv iota in Hc.
  apply andb_true_iff in Hc as [_ Hc]. apply negb_true_iff in Hc.
  destruct r as [|c' r']; [reflexivity|]. cbn [headIs] in Hc. cbn [startsWith andb].
  destruct (c' =? 32) eqn:E'; [|reflexivity]. apply Z.eqb_eq in E'. subst c'.
  discriminate Hc.
Qed.

Lemma lastIs_kuten_not_space (s : str) :
  lastIs isKuten s = true -> lastIs isSpace s = false.
Proof.
  induction s as [|c r IH]; [discriminate|].
  rewrite !lastIs_cons. destruct r; [apply kuten_not_space | exact IH].
Qed.

(** X4: the transformer's output has no white space at either end, and the
    only white space inside it is the plain space, never twice in a row. *)
Theorem transform_white_space (t : str) (c : ResponseTypeEnum) :
  headIs isSpace (formatToPod021Style t c) = false
  /\ lastIs isSpace (formatToPod021Style t c) = false
  /\ (forall x, In x (formatToPod021Style t c) -> isSpace x = true -> x = 32)
  /\ includes (formatToPod021Style t c) [32; 32] = false.
Proof.
  rewrite transform_split.
  destruct (normalizeEnding_normalized (substitute t)) as [Hlast _ Hws Hhead].
  split; [exact Hhead|]. split; [now apply lastIs_kuten_not_space|].
  split; [intros x; now apply wsNormal_In | now apply wsNormal_no_double].
Qed.

(** ** The classifier: the rule table *)

Section ClassifierTable.

Variable toLowerCase : str -> str.

(** The classifier, read off the table. *)
Lemma detect_rule_cases (text : str) (context : option str) :
  (forall t, firstRule textRules (toLowerCase text) = Some t ->
             detectResponseType toLowerCase text context = t)
  /\ (firstRule textRules (toLowerCase text) = None ->
      detectResponseType toLowerCase text context
      = if asksQuestion (loweredContext toLowerCase context) then Answer else Report).
Proof.
  unfold detectResponseType, textRules, asksQuestion, contextMarkers.
  cbn [firstRule existsb]. cbv zeta. rewrite !orb_false_r, !orb_assoc.
  assert (E : match context with
              | Some c => match toLowerCase c with [] => [] | l => l end
              | None => []
              end = loweredContext toLowerCase context).
  { destruct context as [c|]; [|reflexivity]. simpl. now destruct (toLowerCase c). }
  rewrite E.
  split; [intros t|];
    repeat match goal with
           | |- context [if ?b then _ else _] => destruct b
           end; congruence.
Qed.

(** X5: the classifier is the first-match evaluation of the six-rule table
    on the lower-cased text; only when no rule matches does it look at the
    context, answering 回答 when the context asks a question and 報告
    otherwise. *)
Theorem classify_is_table_lookup (text : str) (context : option str) :
  detectResponseType toLowerCase text context
  = match firstRule textRules (toLowerCase text) with
    | Some t => t
    | None =>
        if asksQuestion (loweredContext toLowerCase context) then Answer else Report
    end.
Proof.
  destruct (detect_rule_cases text context) as [Hsome Hnone].
  destruct (firstRule textRules (toLowerCase text)) as [t|] eqn:E.
  - now apply Hsome.
  - now apply Hnone.
Qed.

Lemma firstRule_none (rules : list (list str * ResponseTypeEnum)) (text : str) :
  firstRule rules text = None <->
  forall ks t k, In (ks, t) rules -> In k ks -> includes text k = false.
Proof.
  induction rules as [|[ks t] rest IH]; cbn [firstRule].
  - split; [intros _ ks t k [] | reflexivity].
  - destruct (existsb (includes text) ks) eqn:E.
    + split; [discriminate|]. intros H.
      apply existsb_exists in E as (k & Hk & Hin).
      rewrite (H ks t k (or_introl eq_refl) Hk) in Hin. discriminate.
    + rewrite IH. split.
      * intros H ks' t' k [[= <- <-]|Hin] Hk; [|now apply (H ks' t')].
        destruct (includes text k) eqn:Ek; [|reflexivity].
        rewrite <- E. apply eq_sym, existsb_exists. now exists k.
      * intros H ks' t' k Hin. apply (H ks' t'). now right.
Qed.

Lemma firstRule_textRules (text : str) (t : ResponseTypeEnum) :
  firstRule textRules text = Some t -> t <> Answer /\ t <> Report.
Proof.
  unfold textRules. cbn [firstRule].
  repeat match goal with
         | |- context [if ?b then _ else _] => destruct b
         end; intros [= <-]; split; discriminate.
Qed.

Lemma textRules_keywords (k : str) :
  In k textKeywords -> exists ks t, In (ks, t) textRules /\ In k ks.
Proof.
  intros H. change textKeywords with (flat_map fst textRules) in H.
  apply in_flat_map in H as ([ks t] & Hr & Hk). now exists ks, t.
Qed.

(** X6: the context matters only when no keyword of the text rules occurs
    in the lower-cased text; and the classifier returns 回答 only for a
    context that asks a question. *)
Theorem classify_context_last (text : str) (context : option str) :
  ((exists k, In k textKeywords /\ includes (toLowerCase text) k = true) ->
   forall context',
     detectResponseType toLowerCase text context
     = detectResponseType toLowerCase text context')
  /\ (detectResponseType toLowerCase text context = Answer ->
      (forall k, In k textKeywords -> includes (toLowerCase text) k = false)
      /\ exists c k, context = Some c /\ In k contextMarkers
                     /\ includes (toLowerCase c) k = true).
Proof.
  destruct (detect_rule_cases text context) as [Hsome Hnone].
  split.
  - intros (k & Hk & Hin) context'.
    destruct (firstRule textRules (toLowerCase text)) as [t|] eqn:E.
    + rewrite (Hsome t eq_refl).
      symmetry. now apply (proj1 (detect_rule_cases text context')).
    + destruct (textRules_keywords k Hk) as (ks & t & Hr & Hks).
      rewrite (proj1 (firstRule_none _ _) E ks t k Hr Hks) in Hin. discriminate.
  - destruct (firstRule textRules (toLowerCase text)) as [t|] eqn:E.
    + rewrite (Hsome t eq_refl). intros ->. now destruct (firstRule_textRules _ _ E).
    + rewrite (Hnone eq_refl).
      destruct (asksQuestion (loweredContext toLowerCase context)) eqn:Q; [|discriminate].
      intros _. split.
      * intros k Hk. destruct (textRules_keywords k Hk) as (ks & t & Hr & Hks).
        exact (proj1 (firstRule_none _ _) E ks t k Hr Hks).
      * unfold asksQuestion in Q. apply existsb_exists in Q as (k & Hk & Hin).
        destruct context as [c|].
        -- exists c, k. auto.
        -- simpl in Hin. destruct k; simpl in Hk; [|discriminate].
           exfalso. revert Hk. clear. unfold contextMarkers. cbn [In].
           intros [H|[H|[H|[]]]]; apply (f_equal (@length Z)) in H;
             vm_compute in H; discriminate.
Qed.

End ClassifierTable.

Lemma classify_context_last_witness :
  (forall context',
      detectResponseType toLowerCaseAscii (utf16 "設定を確認した") None
      = detectResponseType toLowerCaseAscii (utf16 "設定を確認した") context')
  /\ exists c k, Some (utf16 "明日の予定を教えて") = Some c /\ In k contextMarkers
                 /\ includes (toLowerCaseAscii c) k = true.
Proof.
  split.
  - apply (proj1 (classify_context_last toLowerCaseAscii (utf16 "設定を確認した") None)).
    exists (utf16 "設定"). split; [|computed].
    apply In_computed. computed.
  - apply (proj2 (classify_context_last toLowerCaseAscii (utf16 "晴れ")
                    (Some (utf16 "明日の予定を教えて")))).
    computed.
Defined.

(** ** The tool and the assembler together *)

Lemma label_isResponseType (t : ResponseTypeEnum) : isResponseType (label t) = true.
Proof. destruct t; computed. Qed.

Lemma lastIs_app_ne (q : Z -> bool) (a b : str) :
  b <> [] -> lastIs q (a ++ b) = lastIs q b.
Proof.
  intros Hb. induction a as [|c a IH]; [reflexivity|].
  change ((c :: a) ++ b) with (c :: (a ++ b)). rewrite lastIs_cons, IH.
  destruct (a ++ b) eqn:E; [|reflexivity].
  apply app_eq_nil in E as [_ E]. contradiction.
Qed.

Lemma endsWith_single (c : Z) (s : str) :
  endsWith s [c] = lastIs (fun x => x =? c) s.
Proof.
  unfold endsWith. change (rev [c]) with [c].
  destruct s as [|a s] using rev_ind; [reflexivity|].
  rewrite rev_app_distr, lastIs_app. cbn [rev app startsWith].
  destruct (rev s); now rewrite andb_true_r.
Qed.

(** An annotation is never empty and ends with 】. *)
Lemma annotation_closed (text : str) (type : ResponseTypeEnum) (a : str) :
  extractAdditionalInfo text type = Some a ->
  a <> [] /\ lastIs isClosingBracket a = true.
Proof.
  intros H.
  assert (shape : exists x y, a = x ++ y ++ [12305]).
  { destruct type.
    - rewrite (extract_count text Report) in H by now right.
      destruct (exec countPattern text); [|discriminate]. injection H as <-.
      exists (utf16 "【現在" ++ nth 0 l []), [20214]. now rewrite <- app_assoc.
    - rewrite extract_other in H by tauto. discriminate.
    - rewrite extract_other in H by tauto. discriminate.
    - rewrite (extract_count text Acknowledgment) in H by now left.
      destruct (exec countPattern text); [|discriminate]. injection H as <-.
      exists (utf16 "【現在" ++ nth 0 l []), [20214]. now rewrite <- app_assoc.
    - rewrite extract_time in H.
      destruct (exec timePattern text); [|discriminate]. injection H as <-.
      exists (utf16 "【" ++ whole l), [12395; 23455; 34892]. now rewrite <- app_assoc.
    - rewrite extract_data in H.
      destruct (exec dataPattern text); [|discriminate]. injection H as <-.
      exists (utf16 "【データ量: " ++ whole l), []. now rewrite <- app_assoc.
    - rewrite extract_other in H by tauto. discriminate.
    - rewrite extract_other in H by tauto. discriminate. }
  destruct shape as (x & y & ->). split.
  - intros E. apply app_eq_nil in E as [_ E]. apply app_eq_nil in E as [_ E].
    discriminate E.
  - rewrite app_assoc, lastIs_app. reflexivity.
Qed.

(** The value of a call that ended normally. *)
Lemma Normal_inj (a b : str) : Normal a = Normal b -> a = b.
Proof. now intros [= ->]. Qed.

(** A string that ends with an annotation ends with 】 and not with 。. *)
Lemma annotated_ending (front a : str) :
  a <> [] -> lastIs isClosingBracket a = true ->
  endsWith (front ++ a) (utf16 "】") = true
  /\ endsWith (front ++ a) (utf16 "。") = false.
Proof.
  intros Hne Hlast.
  change (utf16 "】") with [12305]. change (utf16 "。") with [12290].
  rewrite !endsWith_single, !(lastIs_app_ne _ front a Hne).
  split; [exact Hlast|].
  revert Hlast. clear. induction a as [|x a IH]; [discriminate|].
  rewrite !lastIs_cons. destruct a; [|exact IH].
  unfold isClosingBracket. intros H. apply Z.eqb_eq in H. now subst x.
Qed.

Section ToolOutput.

Variable toLowerCase : str -> str.

(** What the assembler makes of the tool's output. *)
Lemma tool_output_text (rawResponse : str)
    (responseType : option ResponseTypeEnum) (context : option str) (s : str) :
  generatePod021Response
    (Tool.execute toLowerCase rawResponse responseType context) = Normal s ->
  exists t,
    lastIs isKuten (formatToPod021Style rawResponse t) = true
    /\ s = (label t ++ utf16 "：")
           ++ formatToPod021Style rawResponse t
           ++ match extractAdditionalInfo rawResponse t with
              | Some (c :: info) => utf16 " " ++ c :: info
              | _ => []
              end
    /\ additionalInfo (Tool.execute toLowerCase rawResponse responseType context)
       = extractAdditionalInfo rawResponse t.
Proof.
  unfold generatePod021Response, Tool.execute. cbv zeta.
  cbn [type content additionalInfo]. intros H. apply Normal_inj in H.
  eexists. split; [|split; [symmetry; exact H | reflexivity]].
  rewrite transform_split. apply normalizeEnding_normalized.
Qed.

(** X7: whatever the raw response, the given type and the context, the
    object the tool returns is assembled without error into a string that
    begins with one of the eight headers and a full-width colon, followed by
    a content that ends with the terminal mark; without an annotation the
    string ends with that mark, and with one it ends with 】 instead. *)
Theorem tool_output_assembles (rawResponse : str)
    (responseType : option ResponseTypeEnum) (context : option str) :
  let f := Tool.execute toLowerCase rawResponse responseType context in
  isResponseType (type f) = true
  /\ lastIs isKuten (content f) = true
  /\ exists s,
      generatePod021Response f = Normal s
      /\ startsWith s (type f ++ utf16 "：") = true
      /\ (additionalInfo f = None -> endsWith s (utf16 "。") = true)
      /\ (additionalInfo f <> None ->
          endsWith s (utf16 "】") = true /\ endsWith s (utf16 "。") = false).
Proof.
  unfold Tool.execute. cbv zeta.
  set (t := match responseType with
            | Some t => t
            | None => detectResponseType toLowerCase rawResponse context
            end).
  cbn [type content additionalInfo].
  assert (Hcontent : lastIs isKuten (formatToPod021Style rawResponse t) = true).
  { rewrite transform_split. apply normalizeEnding_normalized. }
  split; [apply label_isResponseType|]. split; [exact Hcontent|].
  unfold generatePod021Response. cbn [type content additionalInfo]. cbv zeta.
  eexists. split; [reflexivity|]. split; [|split].
  - apply startsWith_app.
  - intros ->. rewrite app_nil_r.
    change (utf16 "。") with [kuten]. rewrite endsWith_kuten.
    rewrite lastIs_app_ne; [exact Hcontent|].
    intros E. rewrite E in Hcontent. discriminate.
  - destruct (extractAdditionalInfo rawResponse t) as [a|] eqn:E; [|congruence].
    intros _. destruct (annotation_closed _ _ _ E) as [Hne Hlast].
    destruct a as [|c a]; [now elim Hne|].
    rewrite !app_assoc. now apply annotated_ending.
Qed.

End ToolOutput.

Lemma tool_output_assembles_witness :
  exists s,
    generatePod021Response
      (Tool.execute toLowerCaseAscii (utf16 "牛乳を追加しました。現在10件です。") None None)
    = Normal s
    /\ endsWith s (utf16 "】") = true.
Proof.
  destruct (tool_output_assembles toLowerCaseAscii
              (utf16 "牛乳を追加しました。現在10件です。") None None)
    as (_ & _ & s & Hs & _ & _ & Hann).
  exists s. split; [exact Hs|]. apply Hann.
  intros E. vm_compute in E. discriminate E.
Defined.

(** ** The overlay: what it adds *)

Lemma replaceFirst_inserts (k : Z) (fragment s : str) :
  exists pre post,
    s = pre ++ post
    /\ (replaceFirst [k] (k :: fragment) s = s
        \/ replaceFirst [k] (k :: fragment) s = pre ++ fragment ++ post).
Proof.
  induction s as [|c r IH].
  - exists [], []. split; [reflexivity | now left].
  - cbn [replaceFirst startsWith]. destruct (c =? k) eqn:E.
    + apply Z.eqb_eq in E. subst c. replace (startsWith r []) with true by now destruct r.
      cbn [andb length skipn]. exists [k], r. split; [reflexivity | now right].
    + cbn [andb]. destruct IH as (pre & post & Hs & [Hr | Hr]).
      * exists [], (c :: r). split; [reflexivity|]. left. now rewrite Hr.
      * exists (c :: pre), post. split; [now rewrite Hs|]. right. now rewrite Hr.
Qed.

Lemma recognition_sentence :
  utf16 "……しかし、その言葉は好ましい反応と認識。" = recognitionFragment.
Proof. computed. Qed.

Lemma contact_replacement :
  utf16 "。当機は、非戦闘行為であっても、その接触を好意的と判断する。"
  = kuten :: contactFragment.
Proof. computed. Qed.

(** X8: the overlay never removes or reorders anything: its output is the
    response with nothing added, with the recognition sentence added at the
    end, or with the contact sentence added inside it. *)
Theorem overlay_only_inserts (response : str) (level : option F64.float) :
  exists pre post ins,
    response = pre ++ post
    /\ applyIntimacyPhase response level = pre ++ ins ++ post
    /\ (ins = [] \/ (ins = recognitionFragment /\ post = [])
        \/ ins = contactFragment).
Proof.
  unfold applyIntimacyPhase. rewrite recognition_sentence.
  destruct (F64.ltb _ _).
  { exists response, [], []. rewrite !app_nil_r.
    split; [reflexivity|]. split; [reflexivity|]. now left. }
  destruct (includes response _).
  { exists response, [], recognitionFragment. rewrite !app_nil_r.
    split; [reflexivity|]. split; [reflexivity|]. right. left. now split. }
  destruct (_ || _).
  - change (utf16 "。") with [kuten]. rewrite contact_replacement.
    destruct (replaceFirst_inserts kuten contactFragment response)
      as (pre & post & Hs & [Hr | Hr]); rewrite Hr.
    + exists response, [], []. rewrite !app_nil_r.
      split; [reflexivity|]. split; [reflexivity|]. now left.
    + exists pre, post, contactFragment.
      split; [exact Hs|]. split; [reflexivity|]. right. now right.
  - exists response, [], []. rewrite !app_nil_r.
    split; [reflexivity|]. split; [reflexivity|]. now left.
Qed.

(** ** Comparisons of numbers *)

Lemma cmp_fin (ex ey : Z) (mx my : positive) :
  match Z.compare ey ex with Lt => Lt | Gt => Gt | Eq => Pos.compare_cont Eq my mx end
  = CompOpp match Z.compare ex ey with Lt => Lt | Gt => Gt | Eq => Pos.compare_cont Eq mx my end.
Proof.
  rewrite (Z.compare_antisym ex ey).
  destruct (Z.compare ex ey); cbn [CompOpp]; try reflexivity.
  pose proof (Pos.compare_cont_antisym mx my Eq) as H. cbn [CompOpp] in H.
  now rewrite <- H.
Qed.
Lemma cmp_fin' (ex ey : Z) (mx my : positive) :
  match Z.compare ey ex with Lt => Gt | Gt => Lt | Eq => CompOpp (Pos.compare_cont Eq my mx) end
  = CompOpp match Z.compare ex ey with Lt => Gt | Gt => Lt | Eq => CompOpp (Pos.compare_cont Eq mx my) end.
Proof.
  rewrite (Z.compare_antisym ex ey).
  destruct (Z.compare ex ey); cbn [CompOpp]; try reflexivity.
  pose proof (Pos.compare_cont_antisym mx my Eq) as H. cbn [CompOpp] in H.
  rewrite <- H. now destruct (Pos.compare_cont Eq mx my).
Qed.
Lemma SFcompare_antisym (x y : F64.float) :
  SFcompare y x = option_map CompOpp (SFcompare x y).
Proof.
  destruct x as [sx|sx| |sx mx ex], y as [sy|sy| |sy my ey];
    try (destruct sx); try (destruct sy); try reflexivity;
    cbn [SFcompare option_map]; f_equal.
  - apply cmp_fin'.
  - apply cmp_fin.
Qed.

Lemma ltb_geb (x y : F64.float) :
  isNumber x = true -> isNumber y = true ->
  F64.ltb x y = negb (F64.geb x y).
Proof.
  intros Hx Hy. unfold F64.ltb, F64.geb, SFltb, SFleb.
  rewrite (SFcompare_antisym x y).
  destruct (SFcompare x y) as [[| |]|] eqn:E; try reflexivity.
  destruct x, y; try discriminate; cbn in E; discriminate.
Qed.

Lemma leb_isNumber (x y : F64.float) : F64.leb x y = true -> isNumber x = true.
Proof. destruct x; try reflexivity. discriminate. Qed.

Lemma min_ceiling (l : F64.float) :
  F64.leb l (F64.ofZ 5) = true -> F64.min l (F64.ofZ 5) = l.
Proof.
  unfold F64.leb, SFleb, F64.min.
  change (F64.ofZ 5) with (S754_finite false 5629499534213120 (-50)).
  destruct (SFcompare l _) as [[| |]|]; try discriminate; try reflexivity.
  intros _. now destruct l as [[|]| | |].
Qed.

(** ** The familiarity tracker: further properties *)

Lemma update_eq (m : IntimacyManager) (t : turn) :
  update m t
  = Manager (raise (thanks (fst t)) (fond (fst t))
               (increment (interactionCount m) mod 20 =? 0) (intimacyLevel m))
      (increment (interactionCount m)).
Proof. reflexivity. Qed.

Lemma after_snoc (m : IntimacyManager) (calls : list turn) (t : turn) :
  after m (calls ++ [t]) = update (after m calls) t.
Proof. unfold after. now rewrite fold_left_app. Qed.

Lemma after_reachable (calls : list turn) :
  forall m, In (intimacyLevel m) reachable ->
            In (intimacyLevel (after m calls)) reachable.
Proof.
  induction calls as [|t calls IH]; intros m Hm; [exact Hm|].
  apply (IH (update m t)). now apply update_invariant.
Qed.

Lemma fresh_reachable : In (intimacyLevel fresh) reachable.
Proof. apply member_In. computed. Qed.

Lemma reachable_number (l : F64.float) : In l reachable -> isNumber l = true.
Proof.
  intros H.
  assert (All : forallb isNumber reachable = true) by computed.
  rewrite forallb_forall in All. now apply All.
Qed.

Lemma overlay_by_flag (response : str) (l : F64.float) :
  isNumber l = true ->
  applyIntimacyPhase response (Some l)
  = if F64.geb l (F64.ofZ 3) then applyIntimacyPhase response (Some (F64.ofZ 5))
    else response.
Proof.
  intros Hl. unfold applyIntimacyPhase.
  rewrite (ltb_geb l (F64.ofZ 3) Hl eq_refl).
  change (F64.ltb (F64.ofZ 5) (F64.ofZ 3)) with false.
  now destruct (F64.geb l (F64.ofZ 3)).
Qed.

(** X9: for a manager in any state it can reach, the overlay depends on the
    level only through [isIntimatePhase]: while that is false the response
    comes back unchanged, and once it is true the overlay does what it does
    at the highest level. *)
Theorem overlay_follows_isIntimatePhase (calls : list turn) (response : str) :
  (isIntimatePhase (after fresh calls) = false ->
   applyIntimacyPhase response (Some (getIntimacyLevel (after fresh calls)))
   = response)
  /\ (isIntimatePhase (after fresh calls) = true ->
      applyIntimacyPhase response (Some (getIntimacyLevel (after fresh calls)))
      = applyIntimacyPhase response (Some (F64.ofZ 5))).
Proof.
  pose proof (reachable_number _ (after_reachable calls fresh fresh_reachable)) as Hn.
  unfold getIntimacyLevel, isIntimatePhase.
  rewrite (overlay_by_flag response _ Hn).
  split; intros ->; reflexivity.
Qed.

Lemma overlay_follows_isIntimatePhase_witness :
  applyIntimacyPhase (utf16 "報告：接触を確認。")
    (Some (getIntimacyLevel (after fresh [(utf16 "ありがとう", utf16 "回答：問題ない。")])))
  = utf16 "報告：接触を確認。"
  /\ applyIntimacyPhase (utf16 "報告：接触を確認。")
       (Some (getIntimacyLevel (after fresh (repeat (utf16 "ポッド好き、ありがとう", []) 8))))
     = applyIntimacyPhase (utf16 "報告：接触を確認。") (Some (F64.ofZ 5)).
Proof.
  split.
  - apply (proj1 (overlay_follows_isIntimatePhase
                    [(utf16 "ありがとう", utf16 "回答：問題ない。")] _)).
    computed.
  - apply (proj2 (overlay_follows_isIntimatePhase
                    (repeat (utf16 "ポッド好き、ありがとう", []) 8) _)).
    computed.
Defined.

Lemma helperAfter_manager (calls : list turn) :
  Helper.intimacyManager (helperAfter calls) = after fresh calls.
Proof.
  unfold helperAfter, after, Helper.new.
  generalize fresh as m. induction calls as [|t calls IH]; intros m; [reflexivity|].
  cbn [fold_left]. unfold Helper.updateIntimacy at 2. cbn [Helper.intimacyManager].
  apply IH.
Qed.

Lemma reachable_phase (l : F64.float) : In l reachable -> phaseAgrees l = true.
Proof.
  intros H.
  assert (All : forallb phaseAgrees reachable = true) by computed.
  rewrite forallb_forall in All. now apply All.
Qed.

Lemma phaseName_high (p : Phase) :
  (3 <=? rank p)%nat = true
  <-> phaseName p = utf16 "親密" \/ phaseName p = utf16 "感情萌芽".
Proof.
  destruct p; cbn [rank Nat.leb]; split; intros H; try discriminate; auto;
    destruct H as [H|H]; apply (f_equal (fun s => nth 0 s 0)) in H;
    vm_compute in H; discriminate.
Qed.

(** X10: in every status the helper reports, [isIntimate] is true exactly
    when the phase is 親密 or 感情萌芽, and the level lies between 0 and 5. *)
Theorem status_consistent (calls : list turn) :
  let s := Helper.getStatus (helperAfter calls) in
  (Helper.status_isIntimate s = true
   <-> Helper.status_phase s = utf16 "親密"
       \/ Helper.status_phase s = utf16 "感情萌芽")
  /\ F64.leb (F64.ofZ 0) (Helper.status_intimacyLevel s) = true
  /\ F64.leb (Helper.status_intimacyLevel s) (F64.ofZ 5) = true.
Proof.
  cbv zeta. unfold Helper.getStatus.
  cbn [Helper.status_isIntimate Helper.status_phase Helper.status_intimacyLevel].
  rewrite helperAfter_manager.
  pose proof (after_reachable calls fresh fresh_reachable) as Hr.
  split.
  - rewrite <- phaseName_high.
    pose proof (reachable_phase _ Hr) as Hp. unfold phaseAgrees in Hp.
    apply Bool.eqb_prop in Hp. unfold isIntimatePhase.
    change (getPhase (after fresh calls))
      with (phaseOf (intimacyLevel (after fresh calls))).
    now rewrite Hp.
  - assert (All : forallb (fun l => F64.leb (F64.ofZ 0) l && F64.leb l (F64.ofZ 5))
                    reachable = true) by computed.
    rewrite forallb_forall in All. specialize (All _ Hr).
    now apply andb_true_iff in All.
Qed.

(** X11: the interaction count is the number of calls made (below 2^53,
    where a number stops counting). *)
Theorem count_is_number_of_calls (calls : list turn) :
  Z.of_nat (length calls) <= 9007199254740992 ->
  interactionCount (after fresh calls) = Z.of_nat (length calls).
Proof.
  induction calls as [|t calls IH] using rev_ind; intros Hlen; [reflexivity|].
  rewrite length_app in Hlen |- *. cbn [length] in Hlen |- *.
  rewrite after_snoc, update_eq. cbn [interactionCount].
  rewrite IH by lia. unfold increment.
  destruct (Z.ltb_spec (Z.of_nat (length calls)) 9007199254740992); lia.
Qed.

Lemma count_is_number_of_calls_witness :
  interactionCount (after fresh (repeat (utf16 "了解", utf16 "了解：待機する。") 45)) = 45.
Proof.
  apply (count_is_number_of_calls (repeat (utf16 "了解", utf16 "了解：待機する。") 45)).
  vm_compute. discriminate.
Defined.

Lemma raise_ceiling (g a p : bool) : raise g a p (F64.ofZ 5) = F64.ofZ 5.
Proof. destruct g, a, p; computed. Qed.

(** X12: the ceiling is absorbing: a manager whose level is 5.0 keeps that
    level through every further call. *)
Theorem ceiling_is_kept (m : IntimacyManager) (calls : list turn) :
  intimacyLevel m = F64.ofZ 5 ->
  intimacyLevel (after m calls) = F64.ofZ 5.
Proof.
  revert m. induction calls as [|t calls IH]; intros m Hm; [exact Hm|].
  apply (IH (update m t)). rewrite update_eq. cbn [intimacyLevel].
  rewrite Hm. apply raise_ceiling.
Qed.

Lemma ceiling_is_kept_witness :
  intimacyLevel (after (after fresh (repeat (utf16 "ポッド好き、ありがとう", []) 13))
                   [(utf16 "ポッドを撫でる、助かる", [])])
  = F64.ofZ 5.
Proof.
  apply ceiling_is_kept. computed.
Defined.

Lemma count_from (calls : list turn) :
  forall m, 0 <= interactionCount m ->
    interactionCount m + Z.of_nat (length calls) <= 9007199254740992 ->
    interactionCount (after m calls) = interactionCount m + Z.of_nat (length calls).
Proof.
  induction calls as [|t calls IH]; intros m H0 Hle; [simpl; lia|].
  change (after m (t :: calls)) with (after (update m t) calls).
  cbn [length] in Hle |- *. rewrite Nat2Z.inj_succ in Hle |- *.
  assert (E : interactionCount (update m t) = interactionCount m + 1).
  { rewrite update_eq. cbn [interactionCount]. unfold increment.
    destruct (Z.ltb_spec (interactionCount m) 9007199254740992); lia. }
  rewrite IH; rewrite E; lia.
Qed.

Lemma reachable_below_ceiling (l : F64.float) :
  In l reachable -> F64.leb l (F64.ofZ 5) = true.
Proof.
  intros H.
  assert (All : forallb (fun l => F64.leb l (F64.ofZ 5)) reachable = true)
    by computed.
  rewrite forallb_forall in All. now apply All.
Qed.

(** X13: on a manager started at 0, a call whose user message has no marker
    leaves the level as it was, unless it is the 20th, 40th, ... call (for
    the first 2^53 calls, the counts a number holds exactly). *)
Theorem quiet_turn_keeps_level (calls : list turn) (t : turn) :
  Z.of_nat (length calls) < 9007199254740992 ->
  quiet t = true ->
  (Z.of_nat (length calls) + 1) mod 20 <> 0 ->
  intimacyLevel (after fresh (calls ++ [t])) = intimacyLevel (after fresh calls).
Proof.
  intros Hlen Hq Hc. rewrite after_snoc, update_eq. cbn [intimacyLevel].
  unfold quiet in Hq. apply andb_true_iff in Hq as [Hg Ha].
  apply negb_true_iff in Hg, Ha.
  unfold thanks, fond. cbv zeta in Hg, Ha. rewrite Hg, Ha.
  rewrite (count_from calls fresh) by (simpl; lia).
  change (interactionCount fresh) with 0. unfold increment.
  destruct (Z.ltb_spec (0 + Z.of_nat (length calls)) 9007199254740992); [|lia].
  apply Z.eqb_neq in Hc. rewrite Z.add_0_l, Hc. unfold raise.
  apply min_ceiling, reachable_below_ceiling, after_reachable, fresh_reachable.
Qed.

Lemma quiet_turn_keeps_level_witness :
  intimacyLevel (after fresh (repeat (utf16 "ありがとう", []) 3
                              ++ [(utf16 "状況を報告せよ", utf16 "報告：異常なし。")]))
  = intimacyLevel (after fresh (repeat (utf16 "ありがとう", []) 3)).
Proof.
  apply quiet_turn_keeps_level;
    [vm_compute; reflexivity | computed | vm_compute; discriminate].
Defined.

(** *** How soon the intimate phase can be reached *)

Lemma nub_In (x : F64.float) (l : list F64.float) : In x l -> In x (nub l).
Proof.
  induction l as [|y r IH]; intros H; [destruct H|]. cbn [nub].
  destruct (member y r) eqn:E.
  - destruct H as [->|H]; [apply IH; now apply member_In | now apply IH].
  - destruct H as [->|H]; [now left | right; now apply IH].
Qed.

Lemma after_early (calls : list turn) :
  (length calls <= 19)%nat ->
  In (intimacyLevel (after fresh calls)) (earlyLevels (length calls))
  /\ interactionCount (after fresh calls) = Z.of_nat (length calls).
Proof.
  induction calls as [|t calls IH] using rev_ind; intros Hlen.
  - split; [now left | reflexivity].
  - rewrite length_app in Hlen |- *. cbn [length] in Hlen.
    destruct (IH ltac:(lia)) as [Hin Hcount].
    rewrite Nat.add_1_r, after_snoc, update_eq.
    cbn [intimacyLevel interactionCount earlyLevels].
    rewrite Hcount. unfold increment.
    destruct (Z.ltb_spec (Z.of_nat (length calls)) 9007199254740992); [|lia].
    split; [|lia].
    replace ((Z.of_nat (length calls) + 1) mod 20 =? 0) with false
      by (symmetry; apply Z.eqb_neq; rewrite Z.mod_small; lia).
    apply nub_In, in_flat_map. exists (intimacyLevel (after fresh calls)).
    split; [exact Hin|].
    destruct (thanks (fst t)), (fond (fst t)); cbn [In]; tauto.
Qed.

Lemma earlyLevels_low (n : nat) :
  (n <= 7)%nat ->
  forallb (fun l => negb (F64.geb l (F64.ofZ 3))) (earlyLevels n) = true.
Proof.
  intros Hn. do 8 (destruct n as [|n]; [computed|]). lia.
Qed.

Lemma update_warm (m : IntimacyManager) (t : turn) :
  warm t = true -> update m t = cherish m.
Proof.
  intros Hw. rewrite update_eq. unfold warm in Hw.
  apply andb_true_iff in Hw as [Hg Ha]. now rewrite Hg, Ha.
Qed.

Lemma after_warm (calls : list turn) :
  forall m, forallb warm calls = true ->
            after m calls = Nat.iter (length calls) cherish m.
Proof.
  induction calls as [|t calls IH]; intros m H; [reflexivity|].
  simpl in H. apply andb_true_iff in H as [Ht H].
  change (after m (t :: calls)) with (after (update m t) calls).
  rewrite (IH _ H), (update_warm m t Ht).
  change (length (t :: calls)) with (S (length calls)).
  now rewrite Nat.iter_succ_r.
Qed.

(** X14: the intimate phase cannot be reached before the eighth call,
    whatever the messages; any eight calls that each carry both a gratitude
    marker and an affection pair reach it. *)
Theorem intimate_phase_not_before_eighth_call :
  (forall calls : list turn,
      (length calls <= 7)%nat -> isIntimatePhase (after fresh calls) = false)
  /\ (forall calls : list turn,
         length calls = 8%nat -> forallb warm calls = true ->
         isIntimatePhase (after fresh calls) = true).
Proof.
  split.
  - intros calls Hlen. destruct (after_early calls ltac:(lia)) as [Hin _].
    pose proof (earlyLevels_low _ Hlen) as All.
    rewrite forallb_forall in All. apply All in Hin.
    now apply negb_true_iff in Hin.
  - intros calls Hlen Hwarm. rewrite (after_warm calls fresh Hwarm), Hlen.
    computed.
Qed.

Lemma intimate_phase_not_before_eighth_call_witness :
  isIntimatePhase (after fresh (repeat (utf16 "ポッド好き、ありがとう", []) 7)) = false
  /\ isIntimatePhase
       (after fresh (repeat (utf16 "ポッドを撫でる。助かる", utf16 "回答：記録した。") 8))
     = true.
Proof.
  split.
  - apply (proj1 intimate_phase_not_before_eighth_call). vm_compute. lia.
  - apply (proj2 intimate_phase_not_before_eighth_call); computed.
Defined.

(** *** A user who never thanks *)

Lemma update_quiet (m : IntimacyManager) (t : turn) :
  quiet t = true -> update m t = idle m.
Proof.
  intros Hq. rewrite update_eq. unfold idle, quiet in *. cbv zeta in *.
  apply andb_true_iff in Hq as [Hg Ha]. apply negb_true_iff in Hg, Ha.
  unfold thanks, fond. now rewrite Hg, Ha.
Qed.

Lemma after_quiet (calls : list turn) :
  forall m, forallb quiet calls = true ->
            after m calls = Nat.iter (length calls) idle m.
Proof.
  induction calls as [|t calls IH]; intros m H; [reflexivity|].
  simpl in H. apply andb_true_iff in H as [Ht H].
  change (after m (t :: calls)) with (after (update m t) calls).
  rewrite (IH _ H), (update_quiet m t Ht).
  change (length (t :: calls)) with (S (length calls)).
  now rewrite Nat.iter_succ_r.
Qed.

Lemma idleRun_spec (steps : nat) :
  forall i m, idleRun steps i m = true ->
  (forall j, (j <= steps)%nat ->
             isIntimatePhase (Nat.iter j idle m) = (1220 <=? i + j)%nat)
  /\ intimacyLevel (Nat.iter steps idle m) = F64.ofZ 5.
Proof.
  induction steps as [|k IH]; intros i m H; cbn [idleRun] in H;
    apply andb_true_iff in H as [H0 H]; apply Bool.eqb_prop in H0.
  - split; [|now apply same_eq].
    intros j Hj. replace j with 0%nat by lia. now rewrite Nat.add_0_r.
  - destruct (IH (S i) (idle m) H) as [Hflag Hend]. split.
    + intros [|j] Hj; [now rewrite Nat.add_0_r|].
      rewrite Nat.iter_succ_r, (Hflag j) by lia. f_equal. lia.
    + now rewrite Nat.iter_succ_r.
Qed.

Lemma idle_first_2020 : idleRun 2020 0 fresh = true.
Proof. computed. Qed.

Lemma idle_ceiling (k : nat) (m : IntimacyManager) :
  intimacyLevel m = F64.ofZ 5 -> intimacyLevel (Nat.iter k idle m) = F64.ofZ 5.
Proof.
  intros Hm. induction k as [|k IH]; [exact Hm|].
  change (Nat.iter (S k) idle m) with (idle (Nat.iter k idle m)).
  unfold idle at 1. cbn [intimacyLevel]. rewrite IH. apply raise_ceiling.
Qed.

(** X15: a user none of whose messages carries a marker gains only the
    periodic bonus, and is in the intimate phase from the 1220th call on
    and not before: sixty additions of 0.05 stay just below 3.0. *)
Theorem silent_user_reaches_intimacy (calls : list turn) :
  forallb quiet calls = true ->
  isIntimatePhase (after fresh calls) = (1220 <=? length calls)%nat.
Proof.
  intros Hq. rewrite (after_quiet calls fresh Hq).
  generalize (length calls) as n. intros n.
  destruct (le_lt_dec n 2020) as [Hle|Hgt].
  - exact (proj1 (idleRun_spec 2020 0 fresh idle_first_2020) n Hle).
  - replace n with ((n - 2020) + 2020)%nat by lia.
    rewrite Nat.iter_add. unfold isIntimatePhase.
    rewrite (idle_ceiling _ _ (proj2 (idleRun_spec 2020 0 fresh idle_first_2020))).
    symmetry. apply Nat.leb_le. lia.
Qed.

Lemma silent_user_reaches_intimacy_witness :
  isIntimatePhase (after fresh (repeat (utf16 "状況を報告せよ", []) 1200))
  = (1220 <=? length (repeat (utf16 "状況を報告せよ", @nil Z) 1200))%nat.
Proof.
  apply silent_user_reaches_intimacy. computed.
Defined.

(** ** The response helper *)

Lemma startsWith_lower_back (k s : str) :
  forallb uncased k = true ->
  startsWith (toLowerCaseAscii s) k = true -> startsWith s k = true.
Proof.
  revert s; induction k as [|a k IH]; intros s Hk Hs.
  - destruct s; reflexivity.
  - destruct s as [|c s]; [discriminate|].
    change (toLowerCaseAscii (c :: s))
      with ((if (65 <=? c) && (c <=? 90) then c + 32 else c) :: toLowerCaseAscii s)
      in Hs.
    cbn [forallb startsWith] in Hk, Hs |- *.
    apply andb_true_iff in Hk as [Ha Hk].
    apply andb_true_iff in Hs as [Hc Hs].
    rewrite (IH s Hk Hs), andb_true_r.
    apply Z.eqb_eq in Hc. apply Z.eqb_eq.
    assert (Hbig : 12288 <= a).
    { unfold uncased in Ha.
      repeat (apply orb_true_iff in Ha as [Ha|Ha]);
        repeat (apply andb_true_iff in Ha as [Ha ?]); lia. }
    destruct ((65 <=? c) && (c <=? 90)) eqn:E; [|exact Hc].
    apply andb_true_iff in E as [E1 E2]. lia.
Qed.

Lemma includes_lower_back (s k : str) :
  forallb uncased k = true ->
  includes (toLowerCaseAscii s) k = true -> includes s k = true.
Proof.
  intros Hk. induction s as [|c s IH]; intros Hs.
  - exact Hs.
  - change (toLowerCaseAscii (c :: s))
      with ((if (65 <=? c) && (c <=? 90) then c + 32 else c) :: toLowerCaseAscii s)
      in Hs.
    cbn [includes] in Hs |- *.
    apply orb_true_iff in Hs as [Hs|Hs]; apply orb_true_iff.
    + left. now apply (startsWith_lower_back k (c :: s)).
    + right. now apply IH.
Qed.

Section HelperProperties.

Variable toLowerCase : str -> str.

(** Lower-casing neither moves uncased text nor makes any. *)
Hypothesis toLowerCase_keeps :
  forall s k, forallb uncased k = true ->
              includes s k = true -> includes (toLowerCase s) k = true.
Hypothesis toLowerCase_makes_none :
  forall s k, forallb uncased k = true ->
              includes (toLowerCase s) k = true -> includes s k = true.

(** X16: every message the helper classifies as gratitude (感謝) earns the
    gratitude bonus when the manager is updated with it. *)
Theorem gratitude_intent_earns_bonus (message botResponse : str)
    (m : IntimacyManager) :
  Helper.analyzeUserIntent toLowerCase message = Helper.Gratitude ->
  exists affection periodic,
    intimacyLevel (Intimacy.updateIntimacy message botResponse m)
    = raise true affection periodic (intimacyLevel m).
Proof.
  intros H.
  assert (Ht : thanks message = true).
  { unfold Helper.analyzeUserIntent in H. cbv zeta in H.
    repeat match type of H with
           | (if ?b then _ else _) = _ => destruct b eqn:?; try discriminate H
           end.
    match goal with
    | E : includes _ (utf16 "ありがとう") || _ = true |- _ =>
        unfold thanks; apply orb_true_iff in E as [E|E];
        (apply toLowerCase_makes_none in E; [|computed]);
        rewrite E; now rewrite ?orb_true_r
    end. }
  change (Intimacy.updateIntimacy message botResponse m)
    with (update m (message, botResponse)).
  rewrite update_eq. cbn [intimacyLevel fst]. rewrite Ht. eauto.
Qed.

(** X17: a message that contains ？ or 教えて is classified as a question
    (質問), whatever else it contains. *)
Theorem question_comes_first (message : str) :
  includes message (utf16 "？") || includes message (utf16 "教えて") = true ->
  Helper.analyzeUserIntent toLowerCase message = Helper.Question.
Proof.
  intros H. unfold Helper.analyzeUserIntent. cbv zeta.
  assert (E : includes (toLowerCase message) (utf16 "？")
              || includes (toLowerCase message) (utf16 "?")
              || includes (toLowerCase message) (utf16 "教えて") = true).
  { apply orb_true_iff in H as [H|H];
      (apply toLowerCase_keeps in H; [|computed]);
      rewrite H; now rewrite ?orb_true_r. }
  now rewrite E.
Qed.

End HelperProperties.

(** ** The classifier: the order of its rules *)

Lemma firstRule_split (text : str) (t : ResponseTypeEnum) (ks : list str)
    (later : list (list str * ResponseTypeEnum)) :
  forall earlier,
    existsb (includes text) ks = true ->
    (forall ks' t' k, In (ks', t') earlier -> In k ks' -> includes text k = false) ->
    firstRule (earlier ++ (ks, t) :: later) text = Some t.
Proof.
  induction earlier as [|[ks0 t0] earlier IH]; intros Hks Hnone; cbn [app firstRule].
  - now rewrite Hks.
  - destruct (existsb (includes text) ks0) eqn:E.
    + apply existsb_exists in E as (k & Hk & Hin).
      rewrite (Hnone ks0 t0 k (or_introl eq_refl) Hk) in Hin. discriminate.
    + apply IH; [exact Hks|].
      intros ks' t' k Hr. apply (Hnone ks' t'). now right.
Qed.

Lemma textKeywords_uncased (k : str) :
  In k textKeywords -> forallb uncased k = true.
Proof.
  intros H.
  assert (All : forallb (forallb uncased) textKeywords = true) by computed.
  rewrite forallb_forall in All. now apply All.
Qed.

Lemma rule_keyword (ks : list str) (t : ResponseTypeEnum) (k : str) :
  In (ks, t) textRules -> In k ks -> In k textKeywords.
Proof.
  intros Hr Hk. change textKeywords with (flat_map fst textRules).
  apply in_flat_map. now exists (ks, t).
Qed.

Section ClassifierOrder.

Variable toLowerCase : str -> str.

(** Lower-casing neither moves uncased text nor makes any. *)
Hypothesis toLowerCase_keeps :
  forall s k, forallb uncased k = true ->
              includes s k = true -> includes (toLowerCase s) k = true.
Hypothesis toLowerCase_makes_none :
  forall s k, forallb uncased k = true ->
              includes (toLowerCase s) k = true -> includes s k = true.

Lemma lowered_keyword (text k : str) :
  In k textKeywords -> includes (toLowerCase text) k = includes text k.
Proof.
  intros Hk. pose proof (textKeywords_uncased k Hk) as Hu.
  destruct (includes text k) eqn:E.
  - now apply toLowerCase_keeps.
  - destruct (includes (toLowerCase text) k) eqn:El; [|reflexivity].
    apply toLowerCase_makes_none in El; [congruence | exact Hu].
Qed.

(** The rule that decides: the first one, in the order of the table, one of
    whose keywords occurs in the text. *)
Lemma classify_by_order (text : str) (context : option str)
    (earlier later : list (list str * ResponseTypeEnum)) (ks : list str)
    (t : ResponseTypeEnum) :
  textRules = earlier ++ (ks, t) :: later ->
  existsb (includes text) ks = true ->
  (forall ks' t' k, In (ks', t') earlier -> In k ks' -> includes text k = false) ->
  detectResponseType toLowerCase text context = t.
Proof.
  intros Hsplit Hks Hnone.
  assert (Hin : forall ks' t', In (ks', t') (earlier ++ (ks, t) :: later) ->
                               In (ks', t') textRules) by now rewrite Hsplit.
  apply (proj1 (detect_rule_cases toLowerCase text context)).
  rewrite Hsplit. apply firstRule_split.
  - apply existsb_exists in Hks as (k & Hk & Hocc).
    apply existsb_exists. exists k. split; [exact Hk|].
    rewrite lowered_keyword; [exact Hocc|].
    apply (rule_keyword ks t); [|exact Hk].
    apply Hin, in_or_app. right. now left.
  - intros ks' t' k Hr Hk. rewrite lowered_keyword; [now apply (Hnone ks' t')|].
    apply (rule_keyword ks' t'); [|exact Hk].
    apply Hin, in_or_app. now left.
Qed.

(** C6: the rules are tried in a fixed order and the first match wins.  A
    text with a confirmation keyword (？, 確認, よろしい) and no keyword of
    the five rules before that one is a confirmation (確認); but every text
    with an add/register keyword (追加, 登録, 設定) and a confirmation keyword
    is an acknowledgment (承認), whose rule comes first; in general the type
    is that of the first rule of the table one of whose keywords occurs; in
    particular "買い物リストに牛乳を追加して" is an acknowledgment. *)
Theorem classify_first_rule_wins :
  (forall (text : str) (context : option str),
      includes text (utf16 "追加") || includes text (utf16 "登録")
        || includes text (utf16 "設定") = true ->
      includes text (utf16 "？") || includes text (utf16 "確認")
        || includes text (utf16 "よろしい") = true ->
      detectResponseType toLowerCase text context = Acknowledgment)
  /\ (forall (text : str) (context : option str),
         includes text (utf16 "？") || includes text (utf16 "確認")
           || includes text (utf16 "よろしい") = true ->
         (forall k, In k (firstn 15 textKeywords) -> includes text k = false) ->
         detectResponseType toLowerCase text context = Confirmation)
  /\ (forall (text : str) (context : option str)
             (earlier later : list (list str * ResponseTypeEnum))
             (ks : list str) (t : ResponseTypeEnum),
         textRules = earlier ++ (ks, t) :: later ->
         existsb (includes text) ks = true ->
         (forall ks' t' k, In (ks', t') earlier -> In k ks' ->
                           includes text k = false) ->
         detectResponseType toLowerCase text context = t)
  /\ (forall context,
         detectResponseType toLowerCase (utf16 "買い物リストに牛乳を追加して") context
         = Acknowledgment).
Proof.
  assert (first : forall text context,
             includes text (utf16 "追加") || includes text (utf16 "登録")
               || includes text (utf16 "設定") = true ->
             detectResponseType toLowerCase text context = Acknowledgment).
  { intros text context Hadd.
    apply (classify_by_order text context [] (skipn 1 textRules)
             [utf16 "追加"; utf16 "登録"; utf16 "設定"]).
    - reflexivity.
    - cbn [existsb]. now rewrite orb_false_r, orb_assoc.
    - intros ks' t' k []. }
  split; [|split; [|split]].
  - intros text context Hadd _. now apply first.
  - intros text context Hconf Hnone.
    apply (classify_by_order text context (firstn 5 textRules) []
             [utf16 "？"; utf16 "確認"; utf16 "よろしい"]).
    + reflexivity.
    + cbn [existsb]. now rewrite orb_false_r, orb_assoc.
    + intros ks' t' k Hr Hk. apply Hnone.
      change (firstn 15 textKeywords) with (flat_map fst (firstn 5 textRules)).
      apply in_flat_map. now exists (ks', t').
  - intros text context earlier later ks t. apply classify_by_order.
  - intros context. apply first. computed.
Qed.

End ClassifierOrder.

Lemma classify_first_rule_wins_witness :
  detectResponseType toLowerCaseAscii (utf16 "Pod: 追加の確認") None = Acknowledgment
  /\ detectResponseType toLowerCaseAscii (utf16 "確認した") None = Confirmation.
Proof.
  destruct (classify_first_rule_wins toLowerCaseAscii includes_lower
              includes_lower_back) as (Hfirst & Hlast & _ & _).
  split.
  - apply Hfirst; computed.
  - apply Hlast; [computed|].
    intros k Hk. unfold textKeywords in Hk. cbn [firstn In] in Hk.
    repeat (destruct Hk as [<-|Hk]; [computed|]). destruct Hk.
Defined.

Lemma gratitude_intent_earns_bonus_witness :
  exists affection periodic,
    intimacyLevel (Intimacy.updateIntimacy (utf16 "ポッド、ありがとう") [] fresh)
    = raise true affection periodic (intimacyLevel fresh).
Proof.
  apply (gratitude_intent_earns_bonus toLowerCaseAscii includes_lower_back).
  computed.
Defined.

Lemma question_comes_first_witness :
  Helper.analyzeUserIntent toLowerCaseAscii (utf16 "ありがとう、次の予定を教えて")
  = Helper.Question.
Proof.
  apply (question_comes_first toLowerCaseAscii includes_lower). computed.
Defined.

(** ** The checks of the test script on the tool's output *)

Lemma matchBranch_lit_app (w rest : str) :
  matchBranch (lit w) (w ++ rest) = Some (map (fun c => [c]) w).
Proof.
  induction w as [|a w IH]; [reflexivity|].
  change (lit (a :: w)) with (unit a :: lit w).
  rewrite matchBranch_cons. cbn [unit lo hi cls app span].
  rewrite Z.eqb_refl, span_zero. cbn [backtrack Nat.ltb Nat.leb skipn firstn].
  now rewrite IH.
Qed.

Lemma matchHere_In (re : regex) (b : branch) (s : str) (m : list str) :
  In b re -> matchBranch b s = Some m -> exists m', matchHere re s = Some m'.
Proof.
  induction re as [|b' re IH]; intros Hin Hb; [destruct Hin|].
  cbn [matchHere]. destruct (matchBranch b' s) as [m'|] eqn:E; [now exists m'|].
  destruct Hin as [->|Hin]; [congruence | now apply IH].
Qed.

Lemma header_matches (t : ResponseTypeEnum) (rest : str) :
  exists m, matchHere Harness.headerPattern ((label t ++ utf16 "：") ++ rest) = Some m.
Proof.
  apply (matchHere_In _ (lit (label t ++ utf16 "：")) _
           (map (fun c => [c]) (label t ++ utf16 "：")));
    [|apply matchBranch_lit_app].
  unfold Harness.headerPattern.
  apply (in_map (fun h => lit (h ++ utf16 "："))).
  destruct t; cbn [label In]; tauto.
Qed.

Lemma endsWith_shorter (s k : str) (a : Z) :
  endsWith s (a :: k) = true -> endsWith s k = true.
Proof.
  unfold endsWith. cbn [rev]. generalize (rev s) (rev k). clear.
  intros x y. revert x. induction y as [|b y IH]; intros x H; [now destruct x|].
  destruct x as [|c x]; [discriminate|]. cbn [app startsWith] in H |- *.
  apply andb_true_iff in H as [Hc H]. now rewrite Hc, (IH x H).
Qed.

Section ToolValidation.

Variable toLowerCase : str -> str.

(** X18: the assembled output of the tool always passes the header check of
    the test script and the check against its own header; but when it
    carries an annotation it ends with 】, so it fails the check for an
    assertive ending and [validatePod021Response] returns false. *)
Theorem annotated_output_fails_validation (rawResponse : str)
    (responseType : option ResponseTypeEnum) (context : option str)
    (expectedHeader s : str) :
  let f := Tool.execute toLowerCase rawResponse responseType context in
  generatePod021Response f = Normal s ->
  Harness.hasHeader (Harness.validate s expectedHeader) = true
  /\ Harness.correctHeader (Harness.validate s (type f ++ utf16 "：")) = true
  /\ (additionalInfo f <> None ->
      Harness.validatePod021Response s expectedHeader = false).
Proof.
  cbv zeta. intros Hs.
  destruct (tool_output_text toLowerCase _ _ _ _ Hs) as (t & Hcontent & Heq & Hinfo).
  split; [|split].
  - cbn [Harness.validate Harness.hasHeader].
    destruct (header_matches t
                (formatToPod021Style rawResponse t
                 ++ match extractAdditionalInfo rawResponse t with
                    | Some (c :: info) => utf16 " " ++ c :: info
                    | _ => []
                    end)) as (m & Hm).
    now rewrite Heq, Hm.
  - cbn [Harness.validate Harness.correctHeader].
    unfold generatePod021Response in Hs. cbv zeta in Hs.
    apply Normal_inj in Hs. rewrite <- Hs. apply startsWith_app.
  - rewrite Hinfo. intros Hf.
    destruct (extractAdditionalInfo rawResponse t) as [a|] eqn:E; [|congruence].
    destruct (annotation_closed _ _ _ E) as [Hne Hlast].
    destruct a as [|c a]; [now elim Hne|].
    rewrite !app_assoc in Heq.
    destruct (annotated_ending
                (((label t ++ utf16 "：") ++ formatToPod021Style rawResponse t)
                 ++ utf16 " ") (c :: a) Hne Hlast) as [_ Hend].
    rewrite <- Heq in Hend.
    unfold Harness.validatePod021Response, Harness.score, Harness.validate.
    cbn [Harness.hasHeader Harness.correctHeader Harness.isAssertive
         Harness.noPoliteForm Harness.noEmotions].
    assert (Ha : endsWith s (utf16 "。") || endsWith s (utf16 "る。")
                 || endsWith s (utf16 "た。") = false).
    { rewrite Hend. cbn [orb]. apply orb_false_iff. split.
      - destruct (endsWith s (utf16 "る。")) eqn:E1; [|reflexivity].
        change (utf16 "る。") with (12427 :: utf16 "。") in E1.
        apply endsWith_shorter in E1. congruence.
      - destruct (endsWith s (utf16 "た。")) eqn:E1; [|reflexivity].
        change (utf16 "た。") with (12383 :: utf16 "。") in E1.
        apply endsWith_shorter in E1. congruence. }
    rewrite Ha.
    destruct (match matchHere _ _ with Some _ => true | None => false end),
      (startsWith s expectedHeader), (negb _ && negb _), (negb _); reflexivity.
Qed.

End ToolValidation.

Lemma annotated_output_fails_validation_witness :
  Harness.validatePod021Response
    (utf16 "承認：牛乳を追加実行。現在10件。 【現在10件】") (utf16 "承認：") = false.
Proof.
  refine (proj2 (proj2 (annotated_output_fails_validation toLowerCaseAscii
            (utf16 "牛乳を追加しました。現在10件です。") None None (utf16 "承認：")
            (utf16 "承認：牛乳を追加実行。現在10件。 【現在10件】") _)) _).
  - computed.
  - intros E. vm_compute in E. discriminate E.
Defined.

(** ** The extractor: the first count is the one quoted *)

Lemma exec_leftmost (re : regex) (s : str) (m : list str) :
  exec re s = Some m ->
  exists pre post,
    s = pre ++ post /\ matchHere re post = Some m
    /\ forall p1 p2, s = p1 ++ p2 -> (length p1 < length pre)%nat ->
                     matchHere re p2 = None.
Proof.
  induction s as [|c r IH]; cbn [exec].
  - destruct (matchHere re []) eqn:E; [|discriminate].
    intros [= <-]. exists [], []. split; [reflexivity|]. split; [exact E|].
    intros p1 p2 _ Hlt. simpl in Hlt. lia.
  - destruct (matchHere re (c :: r)) eqn:E.
    + intros [= <-]. exists [], (c :: r). split; [reflexivity|]. split; [exact E|].
      intros p1 p2 _ Hlt. simpl in Hlt. lia.
    + intros H. destruct (IH H) as (pre & post & -> & Hm & Hfirst).
      exists (c :: pre), post. split; [reflexivity|]. split; [exact Hm|].
      intros [|x p1] p2 Hs Hlt.
      * cbn [app] in Hs. now subst p2.
      * cbn [app] in Hs. injection Hs as -> Hs. apply (Hfirst p1 p2 Hs).
        simpl in Hlt. lia.
Qed.

Lemma span_run (p : Z -> bool) (d : str) (x : Z) (r : str) :
  forallb p d = true -> p x = false -> span p None (d ++ x :: r) = length d.
Proof.
  intros Hd Hx. induction d as [|c d IH]; cbn [app span length].
  - now rewrite Hx.
  - cbn [forallb] in Hd. apply andb_true_iff in Hd as [Hc Hd].
    now rewrite Hc, (IH Hd).
Qed.

Lemma backtrack_first {A : Type} (low k : nat) (try : nat -> option A) (r : A) :
  (low <= k)%nat -> try k = Some r -> backtrack low try k = Some r.
Proof.
  intros Hk Ht. destruct k; cbn [backtrack];
    (replace (_ <? low)%nat with false by (symmetry; apply Nat.ltb_ge; lia));
    now rewrite Ht.
Qed.

(** Digits followed by 件 are matched by the count pattern. *)
Lemma countPattern_matches (d rest : str) :
  d <> [] -> forallb isDigit d = true ->
  matchHere countPattern (d ++ utf16 "件" ++ rest) <> None.
Proof.
  intros Hne Hd. change (utf16 "件" ++ rest) with (20214 :: rest).
  unfold countPattern. change (lit (utf16 "件")) with [unit 20214].
  cbn [matchHere]. rewrite matchBranch_cons. cbn [plus lo hi cls].
  rewrite (span_run isDigit d 20214 rest Hd eq_refl).
  rewrite (backtrack_first 1 (length d) _ [d; [20214]]); [discriminate| |].
  - destruct d; [now elim Hne | simpl; lia].
  - rewrite skipn_app, skipn_all, Nat.sub_diag. cbn [app skipn].
    rewrite matchBranch_unit, Z.eqb_refl. cbn [option_map].
    now rewrite firstn_app, firstn_all, Nat.sub_diag, app_nil_r.
Qed.

(** X19: the count annotation quotes the first count of the text: it is
    【現在 d 件】 for a non-empty run of digits d that stands before 件 in
    the text, and no earlier place in the text begins with digits followed
    by 件. *)
Theorem count_annotation_is_first (text : str) (type : ResponseTypeEnum)
    (a : str) :
  type = Acknowledgment \/ type = Report ->
  extractAdditionalInfo text type = Some a ->
  exists pre d rest,
    text = pre ++ d ++ utf16 "件" ++ rest
    /\ d <> [] /\ forallb isDigit d = true
    /\ a = utf16 "【現在" ++ d ++ utf16 "件】"
    /\ forall p1 d' rest',
        text = p1 ++ d' ++ utf16 "件" ++ rest' ->
        d' <> [] -> forallb isDigit d' = true ->
        (length pre <= length p1)%nat.
Proof.
  intros Htype H. rewrite (extract_count text type Htype) in H.
  destruct (exec countPattern text) as [m|] eqn:E; [|discriminate].
  injection H as <-.
  apply exec_leftmost in E as (pre & post & -> & Hm & Hfirst).
  apply countPattern_match in Hm as (d & rest & -> & Hd & Hall & ->).
  exists pre, d, rest. split; [reflexivity|]. split; [exact Hd|].
  split; [exact Hall|]. split; [reflexivity|].
  intros p1 d' rest' Hs Hne Hdig.
  destruct (le_lt_dec (length pre) (length p1)) as [Hle|Hlt]; [exact Hle|].
  pose proof (Hfirst p1 _ Hs Hlt) as Hnone.
  now apply countPattern_matches in Hnone.
Qed.

Lemma count_annotation_is_first_witness :
  exists pre d rest,
    utf16 "3件中10件を登録" = pre ++ d ++ utf16 "件" ++ rest
    /\ d <> [] /\ forallb isDigit d = true
    /\ utf16 "【現在3件】" = utf16 "【現在" ++ d ++ utf16 "件】"
    /\ forall p1 d' rest',
        utf16 "3件中10件を登録" = p1 ++ d' ++ utf16 "件" ++ rest' ->
        d' <> [] -> forallb isDigit d' = true ->
        (length pre <= length p1)%nat.
Proof.
  apply (count_annotation_is_first (utf16 "3件中10件を登録") Report).
  - now right.
  - computed.
Defined.

(** ** The transformer: blank input *)

Lemma startsWith_blank (s w : str) :
  forallb isSpace s = true -> headIs isSpace w = false -> w <> [] ->
  startsWith s w = false.
Proof.
  intros Hs Hw Hne. destruct w as [|a w]; [now elim Hne|].
  destruct s as [|c s]; [reflexivity|]. cbn [startsWith].
  cbn [forallb] in Hs. apply andb_true_iff in Hs as [Hc _]. cbn [headIs] in Hw.
  destruct (c =? a) eqn:E; [|reflexivity]. apply Z.eqb_eq in E. congruence.
Qed.

Lemma includes_blank (s w : str) :
  forallb isSpace s = true -> headIs isSpace w = false -> w <> [] ->
  includes s w = false.
Proof.
  intros Hs Hw Hne. induction s as [|c s IH]; cbn [includes].
  - rewrite (startsWith_blank [] w) by assumption. reflexivity.
  - rewrite (startsWith_blank (c :: s) w) by assumption.
    cbn [forallb] in Hs. apply andb_true_iff in Hs as [_ Hs]. now apply IH.
Qed.

Lemma substitutionWords_not_blank (w : str) :
  In w substitutionWords -> headIs isSpace w = false /\ w <> [].
Proof.
  intros H.
  assert (All : forallb (fun w => negb (headIs isSpace w) && (0 <? length w)%nat)
                  substitutionWords = true) by computed.
  rewrite forallb_forall in All. specialize (All w H).
  apply andb_true_iff in All as [Hh Hl]. apply negb_true_iff in Hh.
  split; [exact Hh|]. intros ->. discriminate Hl.
Qed.

Lemma blank_no_kuten (s : str) :
  forallb isSpace s = true ->
  lastIs isKuten s = false /\ includes (s ++ [kuten]) [kuten; kuten] = false.
Proof.
  induction s as [|c s IH]; intros Hs; [split; reflexivity|].
  cbn [forallb] in Hs. apply andb_true_iff in Hs as [Hc Hs].
  destruct (IH Hs) as [Hl Hi]. split.
  - rewrite lastIs_cons. destruct s; [now apply space_not_kuten | exact Hl].
  - change ((c :: s) ++ [kuten]) with (c :: (s ++ [kuten])).
    rewrite includes_kk_cons, Hi, (space_not_kuten c Hc). reflexivity.
Qed.

Lemma dropWhile_blank (s r : str) :
  forallb isSpace s = true -> dropWhile isSpace (s ++ r) = dropWhile isSpace r.
Proof.
  induction s as [|c s IH]; intros Hs; [reflexivity|].
  cbn [forallb] in Hs. apply andb_true_iff in Hs as [Hc Hs].
  change ((c :: s) ++ r) with (c :: (s ++ r)).
  now rewrite dropWhile_cons, Hc, IH.
Qed.

(** X20: a text made of white space only, the empty text included, is
    transformed into the terminal mark alone. *)
Theorem transform_blank (t : str) (c : ResponseTypeEnum) :
  forallb isSpace t = true -> formatToPod021Style t c = [kuten].
Proof.
  intros Ht. rewrite transform_split.
  rewrite substitute_absent
    by (intros w Hw; destruct (substitutionWords_not_blank w Hw);
        now apply includes_blank).
  destruct (blank_no_kuten t Ht) as [Hlast Hkk].
  unfold normalizeEnding, assertiveEnding, simplifyRedundancy.
  rewrite endsWith_kuten, Hlast. cbn [negb].
  rewrite (collapseKuten_id _ Hkk).
  assert (Hcs : dropWhile isSpace (collapseSpace (t ++ [kuten])) = [kuten]).
  { destruct t as [|x t]; [reflexivity|].
    rewrite collapseSpace_run.
    - rewrite dropWhile_cons. change (isSpace 32) with true. cbv iota.
      rewrite (dropWhile_blank (x :: t) [kuten] Ht). reflexivity.
    - cbn [forallb] in Ht. apply andb_true_iff in Ht as [Hx _].
      cbn [app span]. rewrite Hx. lia. }
  rewrite trim_kept, Hcs; [reflexivity|].
  rewrite collapseSpace_last, lastIs_app. apply Z.eqb_refl.
Qed.

Lemma transform_blank_witness :
  formatToPod021Style [32; 9; 12288; 10] Answer = [kuten].
Proof.
  apply transform_blank. reflexivity.
Defined.
